(** * price-tracker-widget: a model of [main.go]

    The widget polls a price endpoint for every tracked symbol, trims the
    decimal string it gets back and shows it in a label; the tracked symbols
    come from [~/.pricetrack.json], which is created with defaults when it is
    absent.

    Go strings and byte slices are [string]s (sequences of 8-bit [ascii]
    bytes), Go maps with string keys are [gmap string _], Go slices are
    [list]s (a nil slice and an empty slice are both [[]]: the program only
    ranges over them), and a [*string] is an [option string] with [None] for
    the nil pointer. *)

From Stdlib Require Import Ascii String NArith NArithRing ZArith Lia Permutation.
From stdpp Require Import base option list strings pretty gmap.

Local Open Scope stdpp_scope.

(** ** The parts of package [strings] that [updateLabel] calls *)

Module GoStrings.

(** [trimRightByte(s, c)]: drop bytes equal to [c] from the end of [s] for as
    long as the last byte is [c]. Written by recursion on the string: a byte
    is dropped when everything after it has been dropped and it is [c]. *)
Fixpoint trimRightByte (s : string) (c : ascii) : string :=
  match s with
  | EmptyString => EmptyString
  | String a r =>
      match trimRightByte r c with
      | EmptyString => if Ascii.eqb a c then EmptyString else String a EmptyString
      | r' => String a r'
      end
  end.

(** [strings.TrimRight(s, cutset)] for a cutset of at most one ASCII byte,
    the only way the program calls it ([cutset = "0"]): the empty cutset
    returns [s], a one-byte cutset goes to [trimRightByte]. Longer cutsets
    are outside the model and leave [s] as it is. *)
Definition TrimRight (s cutset : string) : string :=
  match cutset with
  | String c EmptyString => trimRightByte s c
  | _ => s
  end.

(** [strings.HasSuffix(s, suffix)]:
    [len(s) >= len(suffix) && s[len(s)-len(suffix):] == suffix]. *)
Definition HasSuffix (s suffix : string) : bool :=
  (String.length suffix <=? String.length s) &&
  String.eqb
    (substring (String.length s - String.length suffix) (String.length suffix) s)
    suffix.

(** The slice expression [s[:n]]. *)
Definition sliceTo (s : string) (n : nat) : string := substring 0 n s.

(** [strings.Repeat]. *)
Fixpoint Repeat (s : string) (count : nat) : string :=
  match count with
  | 0 => EmptyString
  | S k => s +:+ Repeat s k
  end.

(** The last byte of a string, if it has one. *)
Fixpoint lastByte (s : string) : option ascii :=
  match s with
  | EmptyString => None
  | String a EmptyString => Some a
  | String _ r => lastByte r
  end.

(** [strings.Contains(s, substr)] for a one-byte [substr]. *)
Fixpoint ContainsByte (s : string) (c : ascii) : bool :=
  match s with
  | EmptyString => false
  | String a r => Ascii.eqb a c || ContainsByte r c
  end.

End GoStrings.

(** ** Price formatting (lines 116-123 of [updateLabel]) *)

Module Format.
Import GoStrings.

(** The two statements after [price := data["price"]]: trim trailing zeroes,
    then drop one trailing decimal point. *)
Definition trimPrice (price : string) : string :=
  let price := TrimRight price "0" in
  if HasSuffix price "." then sliceTo price (String.length price - 1)
  else price.

(** [fmt.Sprintf("%s/USDT: %s", symbol, price)]. *)
Definition priceText (symbol price : string) : string :=
  symbol +:+ "/USDT: " +:+ price.

(** The text [updateLabel] shows for a decoded [price]. *)
Definition successText (symbol price : string) : string :=
  priceText symbol (trimPrice price).

End Format.

(** ** Error values

    The errors the program can meet, by the library that makes them. How an
    error prints (its [Error()] method) is left to the libraries: the
    development takes the rendering as a parameter wherever a message is
    printed. An [UnmarshalTypeError] keeps the JSON kind of the value, the Go
    type it was to be stored in and, for a member of an object stored into a
    map, the member's key, which newer toolchains print as the field; the
    offset is left out. *)

Inductive Errno : Type := ENOENT | EACCES | EISDIR | EIO | ENOSPC | EROFS.

Inductive error : Type :=
  | PathError (op path : string) (errno : Errno) (* package os *)
  | UrlError (op url reason : string)            (* net/http, from http.Get *)
  | EOF                                          (* io.EOF *)
  | SyntaxError                                  (* encoding/json: ill-formed or truncated text *)
  | UnmarshalTypeError (val typ field : string)  (* encoding/json *)
  | wrapError (prefix : string) (err : error).   (* fmt.Errorf with a %w verb *)

(** [os.IsNotExist]. *)
Definition IsNotExist (err : error) : bool :=
  match err with
  | PathError _ _ ENOENT => true
  | _ => false
  end.

(** ** Package [unicode/utf8], as far as [encoding/json] needs it *)

Module UTF8.

Definition byte (c : ascii) : N := N_of_ascii c.
Definition chr (n : N) : ascii := ascii_of_N n.

Definition between (lo hi : N) (c : ascii) : bool :=
  (lo <=? byte c)%N && (byte c <=? hi)%N.

Definition isCont : ascii -> bool := between 128 191.

(** Length of the well-formed multi-byte encoding that starts with the lead
    byte [c >= 0x80] followed by [r]; 0 when there is none, in which case
    [utf8.DecodeRune] gives [(RuneError, 1)]. The accepted ranges for the
    second byte are those of Go's table (no overlong forms, no surrogates,
    nothing above U+10FFFF). *)
Definition seqLen (c : ascii) (r : string) : nat :=
  let second lo hi n :=
    match r with
    | String c1 r1 =>
        if between lo hi c1 then
          match n, r1 with
          | 2, _ => 2
          | 3, String c2 _ => if isCont c2 then 3 else 0
          | 4, String c2 (String c3 _) => if isCont c2 && isCont c3 then 4 else 0
          | _, _ => 0
          end
        else 0
    | EmptyString => 0
    end in
  if between 194 223 c then second 128%N 191%N 2
  else if between 224 224 c then second 160%N 191%N 3
  else if between 225 236 c then second 128%N 191%N 3
  else if between 237 237 c then second 128%N 159%N 3
  else if between 238 239 c then second 128%N 191%N 3
  else if between 240 240 c then second 144%N 191%N 4
  else if between 241 243 c then second 128%N 191%N 4
  else if between 244 244 c then second 128%N 143%N 4
  else 0.

Definition RuneError : N := 65533.

Definition isSurrogate (r : N) : bool := (55296 <=? r)%N && (r <? 57344)%N.

(** [utf8.EncodeRune]. *)
Definition EncodeRune (r : N) : string :=
  let r := if isSurrogate r || (1114111 <? r)%N then RuneError else r in
  let cont (n : N) := chr (128 + N.land n 63) in
  if (r <? 128)%N then String (chr r) EmptyString
  else if (r <? 2048)%N then
    String (chr (192 + N.shiftr r 6)) (String (cont r) EmptyString)
  else if (r <? 65536)%N then
    String (chr (224 + N.shiftr r 12))
      (String (cont (N.shiftr r 6)) (String (cont r) EmptyString))
  else
    String (chr (240 + N.shiftr r 18))
      (String (cont (N.shiftr r 12))
         (String (cont (N.shiftr r 6)) (String (cont r) EmptyString))).

(** [utf16.DecodeRune]: the code point of a surrogate pair, [None] where Go
    returns the replacement character. *)
Definition decodeSurrogates (r1 r2 : N) : option N :=
  if (55296 <=? r1)%N && (r1 <? 56320)%N && (56320 <=? r2)%N && (r2 <? 57344)%N
  then Some (N.shiftl (r1 - 55296) 10 + (r2 - 56320) + 65536)%N
  else None.

End UTF8.

(** ** Package [encoding/json]: the syntax of JSON texts *)

Module JSON.
Import UTF8.

(** The quotation mark, and a text between quotation marks. *)
Definition dquote : ascii := "034".

Definition quoted (s : string) : string :=
  String dquote (s +:+ String dquote EmptyString).

#[warnings="-register-all"]
Inductive value : Type :=
  | Null
  | Bool (b : bool)
  | Number (literal : string)
  | Str (s : string)
  | Array (elems : list value)
  | Object (members : list (string * value)).

(** Outcome of reading a prefix of the input. *)
Inductive scan (A : Type) : Type :=
  | Scanned (a : A) (rest : string)
  | Invalid
  | OutOfFuel.
Arguments Scanned {A} a rest.
Arguments Invalid {A}.
Arguments OutOfFuel {A}.

Definition isSpace (c : ascii) : bool :=
  Ascii.eqb c " " || Ascii.eqb c "009" || Ascii.eqb c "013" || Ascii.eqb c "010".

Fixpoint skipSpace (s : string) : string :=
  match s with
  | String c r => if isSpace c then skipSpace r else s
  | EmptyString => EmptyString
  end.

Definition isDigit : ascii -> bool := between 48 57.

Definition hexVal (c : ascii) : option N :=
  if isDigit c then Some (byte c - 48)%N
  else if between 97 102 c then Some (byte c - 87)%N
  else if between 65 70 c then Some (byte c - 55)%N
  else None.

(** [getu4] on the four bytes after a backslash and [u]. *)
Definition hex4 (a b c d : ascii) : option N :=
  match hexVal a, hexVal b, hexVal c, hexVal d with
  | Some x, Some y, Some z, Some w => Some (((x * 16 + y) * 16 + z) * 16 + w)%N
  | _, _, _, _ => None
  end.

(** The one-letter escapes of a string literal. *)
Definition simpleEscape (e : ascii) : option ascii :=
  if Ascii.eqb e dquote || Ascii.eqb e "\" || Ascii.eqb e "/" then Some e
  else if Ascii.eqb e "b" then Some "008"%char
  else if Ascii.eqb e "f" then Some "012"%char
  else if Ascii.eqb e "n" then Some "010"%char
  else if Ascii.eqb e "r" then Some "013"%char
  else if Ascii.eqb e "t" then Some "009"%char
  else None.

Definition push (c : ascii) (o : option (string * string)) : option (string * string) :=
  match o with Some (s, rest) => Some (String c s, rest) | None => None end.

Definition pushs (p : string) (o : option (string * string)) : option (string * string) :=
  match o with Some (s, rest) => Some (p +:+ s, rest) | None => None end.

(** A string literal after its opening quote: the scanner's acceptance and
    [unquote]'s result in one pass. The result is the unquoted string and the
    input after the closing quote; [None] when the scanner rejects (no closing
    quote, a control byte, a bad escape). [pending] counts the continuation
    bytes of a well-formed multi-byte sequence still to be copied; a byte that
    starts no well-formed sequence becomes U+FFFD. *)
Fixpoint scanString (pending : nat) (s : string) : option (string * string) :=
  match s with
  | EmptyString => None
  | String c r =>
      match pending with
      | S p => push c (scanString p r)
      | 0 =>
          if Ascii.eqb c dquote then Some (EmptyString, r)
          else if Ascii.eqb c "\" then
            match r with
            | EmptyString => None
            | String e r1 =>
                match simpleEscape e with
                | Some b => push b (scanString 0 r1)
                | None =>
                    if Ascii.eqb e "u" then
                      match r1 with
                      | String h1 (String h2 (String h3 (String h4 r2))) =>
                          match hex4 h1 h2 h3 h4 with
                          | None => None
                          | Some rr =>
                              if isSurrogate rr then
                                let replaced :=
                                  pushs (EncodeRune RuneError) (scanString 0 r2) in
                                match r2 with
                                | String b1 (String b2 (String g1 (String g2
                                    (String g3 (String g4 r3))))) =>
                                    if Ascii.eqb b1 "\" && Ascii.eqb b2 "u" then
                                      match hex4 g1 g2 g3 g4 with
                                      | Some rr1 =>
                                          match decodeSurrogates rr rr1 with
                                          | Some dec =>
                                              pushs (EncodeRune dec) (scanString 0 r3)
                                          | None => replaced
                                          end
                                      | None => replaced
                                      end
                                    else replaced
                                | _ => replaced
                                end
                              else pushs (EncodeRune rr) (scanString 0 r2)
                          end
                      | _ => None
                      end
                    else None
                end
            end
          else if (byte c <? 32)%N then None
          else if (byte c <? 128)%N then push c (scanString 0 r)
          else
            match seqLen c r with
            | 0 => pushs (EncodeRune RuneError) (scanString 0 r)
            | S n => push c (scanString n r)
            end
      end
  end.

(** The longest run of decimal digits at the start of the input. *)
Fixpoint spanDigits (s : string) : string * string :=
  match s with
  | String c r =>
      if isDigit c then let '(ds, rest) := spanDigits r in (String c ds, rest)
      else (EmptyString, s)
  | EmptyString => (EmptyString, EmptyString)
  end.

(** One byte satisfying [ok], when the input starts with one. *)
Definition optByte (ok : ascii -> bool) (s : string) : string * string :=
  match s with
  | String c r => if ok c then (String c EmptyString, r) else (EmptyString, s)
  | EmptyString => (EmptyString, s)
  end.

(** One or more digits. *)
Definition scanDigits1 (s : string) : option (string * string) :=
  match spanDigits s with
  | (EmptyString, _) => None
  | (ds, rest) => Some (ds, rest)
  end.

(** The integer part: a single 0, or a digit 1-9 followed by any digits. *)
Definition scanInt (s : string) : option (string * string) :=
  match s with
  | String c r =>
      if Ascii.eqb c "0" then Some (String c EmptyString, r)
      else if isDigit c then
        let '(ds, rest) := spanDigits r in Some (String c ds, rest)
      else None
  | EmptyString => None
  end.

(** The optional fraction: a point and one or more digits. *)
Definition scanFrac (s : string) : option (string * string) :=
  match s with
  | String c r =>
      if Ascii.eqb c "." then
        match scanDigits1 r with
        | Some (ds, rest) => Some (String c ds, rest)
        | None => None
        end
      else Some (EmptyString, s)
  | EmptyString => Some (EmptyString, s)
  end.

(** The optional exponent: e or E, an optional sign, one or more digits. *)
Definition scanExp (s : string) : option (string * string) :=
  match s with
  | String e r =>
      if Ascii.eqb e "e" || Ascii.eqb e "E" then
        let '(sign, r1) := optByte (fun g => Ascii.eqb g "+" || Ascii.eqb g "-") r in
        match scanDigits1 r1 with
        | Some (ds, rest) => Some (String e (sign +:+ ds), rest)
        | None => None
        end
      else Some (EmptyString, s)
  | EmptyString => Some (EmptyString, s)
  end.

(** A number literal: an optional minus sign, the integer part, the
    optional fraction and the optional exponent. *)
Definition scanNumber (s : string) : option (string * string) :=
  let '(sign, s1) := optByte (fun c => Ascii.eqb c "-") s in
  match scanInt s1 with
  | None => None
  | Some (int, s2) =>
      match scanFrac s2 with
      | None => None
      | Some (fr, s3) =>
          match scanExp s3 with
          | None => None
          | Some (ex, s4) => Some (sign +:+ int +:+ fr +:+ ex, s4)
          end
      end
  end.

(** [stripPrefix p s]: the input after [p], when [s] starts with [p]. *)
Fixpoint stripPrefix (p s : string) : option string :=
  match p, s with
  | EmptyString, _ => Some s
  | String a p', String b s' => if Ascii.eqb a b then stripPrefix p' s' else None
  | String _ _, EmptyString => None
  end.

(** Binding the outcome of one parser into the next. *)
Definition andThen {A B : Type} (x : scan A) (f : A -> string -> scan B) : scan B :=
  match x with
  | Scanned a rest => f a rest
  | Invalid => Invalid
  | OutOfFuel => OutOfFuel
  end.

Definition ofOption {A : Type} (o : option (A * string)) : scan A :=
  match o with
  | Some (a, rest) => Scanned a rest
  | None => Invalid
  end.

(** [maxNestingDepth]: the scanner rejects a text at the bracket or brace
    that opens its 10001st level of nesting. *)
Definition maxNestingDepth : N := 10000.

(** One JSON value at the start of the input, after optional white space,
    given the number of arrays and objects it is nested in and the parsers
    for what follows an opening bracket and an opening brace. *)
Definition valueStep (depth : N) (elems : string -> scan (list value))
    (members : string -> scan (list (string * value))) (s : string) : scan value :=
  match skipSpace s with
  | EmptyString => Invalid
  | String c r =>
      if Ascii.eqb c dquote then
        andThen (ofOption (scanString 0 r)) (fun str rest => Scanned (Str str) rest)
      else if Ascii.eqb c "[" then
        if (maxNestingDepth <=? depth)%N then Invalid else
        match skipSpace r with
        | EmptyString => Invalid
        | String c' r' =>
            if Ascii.eqb c' "]" then Scanned (Array []) r'
            else andThen (elems r) (fun vs rest => Scanned (Array vs) rest)
        end
      else if Ascii.eqb c "{" then
        if (maxNestingDepth <=? depth)%N then Invalid else
        match skipSpace r with
        | EmptyString => Invalid
        | String c' r' =>
            if Ascii.eqb c' "}" then Scanned (Object []) r'
            else andThen (members r) (fun ms rest => Scanned (Object ms) rest)
        end
      else if Ascii.eqb c "t" then
        andThen (ofOption (option_map (pair tt) (stripPrefix "rue" r)))
                (fun _ rest => Scanned (Bool true) rest)
      else if Ascii.eqb c "f" then
        andThen (ofOption (option_map (pair tt) (stripPrefix "alse" r)))
                (fun _ rest => Scanned (Bool false) rest)
      else if Ascii.eqb c "n" then
        andThen (ofOption (option_map (pair tt) (stripPrefix "ull" r)))
                (fun _ rest => Scanned Null rest)
      else
        andThen (ofOption (scanNumber (String c r)))
                (fun lit rest => Scanned (Number lit) rest)
  end.

(** The elements of an array after its opening bracket, at least one, up to
    and including the closing bracket. *)
Definition elemsStep (one : string -> scan value)
    (elems : string -> scan (list value)) (s : string) : scan (list value) :=
  andThen (one s) (fun v r =>
    match skipSpace r with
    | EmptyString => Invalid
    | String c r' =>
        if Ascii.eqb c "," then andThen (elems r') (fun vs rest => Scanned (v :: vs) rest)
        else if Ascii.eqb c "]" then Scanned [v] r'
        else Invalid
    end).

(** The members of an object after its opening brace, at least one, up to
    and including the closing brace. *)
Definition membersStep (one : string -> scan value)
    (members : string -> scan (list (string * value))) (s : string)
  : scan (list (string * value)) :=
  match skipSpace s with
  | EmptyString => Invalid
  | String q r =>
      if negb (Ascii.eqb q dquote) then Invalid else
      andThen (ofOption (scanString 0 r)) (fun key r1 =>
        match skipSpace r1 with
        | EmptyString => Invalid
        | String c r2 =>
            if negb (Ascii.eqb c ":") then Invalid else
            andThen (one r2) (fun v r3 =>
              match skipSpace r3 with
              | EmptyString => Invalid
              | String d r4 =>
                  if Ascii.eqb d "," then
                    andThen (members r4) (fun ms rest => Scanned ((key, v) :: ms) rest)
                  else if Ascii.eqb d "}" then Scanned [(key, v)] r4
                  else Invalid
              end)
        end)
  end.

(** The three parsers, tied together by recursion on the fuel. [depth] is
    the number of arrays and objects around what is parsed: the elements of
    an array and the members of an object are one level deeper than the
    array or the object is. *)
Fixpoint parseValue (fuel : nat) (depth : N) (s : string) : scan value :=
  match fuel with
  | 0 => OutOfFuel
  | S fuel =>
      valueStep depth (parseElems fuel (N.succ depth)) (parseMembers fuel (N.succ depth)) s
  end
with parseElems (fuel : nat) (depth : N) (s : string) : scan (list value) :=
  match fuel with
  | 0 => OutOfFuel
  | S fuel => elemsStep (parseValue fuel depth) (parseElems fuel depth) s
  end
with parseMembers (fuel : nat) (depth : N) (s : string) : scan (list (string * value)) :=
  match fuel with
  | 0 => OutOfFuel
  | S fuel => membersStep (parseValue fuel depth) (parseMembers fuel depth) s
  end.

(** A parser is well behaved on [s] when it does not run out of fuel and
    what it leaves is shorter than [s]. *)
Definition consumes {A : Type} (x : scan A) (s : string) : Prop :=
  match x with
  | Scanned _ rest => String.length rest < String.length s
  | Invalid => True
  | OutOfFuel => False
  end.

(** Fuel that is enough on every input ([JSONFacts.parseFirst_fuel]). *)
Definition fuelFor (s : string) : nat := 2 * String.length s + 1.

(** The first value of a text. *)
Definition parseFirst (data : string) : scan value := parseValue (fuelFor data) 0 data.

(** [checkValid]: the whole text is one value between optional white space. *)
Definition parseWhole (data : string) : option value :=
  match parseFirst data with
  | Scanned v rest =>
      match skipSpace rest with
      | EmptyString => Some v
      | String _ _ => None
      end
  | _ => None
  end.

(** [n] opening brackets and then [n] closing ones: an empty array inside
    [n - 1] arrays. *)
Definition nestedArrays (n : N) : string :=
  GoStrings.Repeat "[" (N.to_nat n) +:+ GoStrings.Repeat "]" (N.to_nat n).

(** ** Decoding into the two Go types the program uses *)

(** The [Value] field of an [UnmarshalTypeError]. *)
Definition kindOf (v : value) : string :=
  match v with
  | Null => "null"
  | Bool _ => "bool"
  | Number _ => "number"
  | Str _ => "string"
  | Array _ => "array"
  | Object _ => "object"
  end.

Definition orElse (e1 e2 : option error) : option error :=
  match e1 with Some _ => e1 | None => e2 end.

(** Storing a value into a [*string]: [null] leaves the nil pointer, a
    string allocates and stores it, anything else allocates an empty string
    and records a type error; decoding goes on after a type error. *)
Definition decodeStringPtr (v : value) : option string * option error :=
  match v with
  | Null => (None, None)
  | Str s => (Some s, None)
  | _ => (Some EmptyString, Some (UnmarshalTypeError (kindOf v) "string" EmptyString))
  end.

Fixpoint decodeElems (vs : list value) : list (option string) * option error :=
  match vs with
  | [] => ([], None)
  | v :: vs' =>
      let '(p, e) := decodeStringPtr v in
      let '(ps, es) := decodeElems vs' in
      (p :: ps, orElse e es)
  end.

(** Storing a value into a [[]*string] that starts out nil. *)
Definition decodeStringPtrSlice (v : value) : list (option string) * option error :=
  match v with
  | Array vs => decodeElems vs
  | Null => ([], None)
  | _ => ([], Some (UnmarshalTypeError (kindOf v) "[]*string" EmptyString))
  end.

(** [json.Unmarshal(data, &symbols)] with [var symbols []*string]: what
    [symbols] holds afterwards, and the error returned. An ill-formed text is
    rejected before anything is stored. *)
Definition Unmarshal (data : string) : list (option string) * option error :=
  match parseWhole data with
  | Some v => decodeStringPtrSlice v
  | None => ([], Some SyntaxError)
  end.

(** Storing an object's members into a [map[string]string]: every key is
    set, to the string, or to the empty string for [null] and for values of
    another type, which record a type error. A later duplicate key wins. *)
Fixpoint decodeMembers (ms : list (string * value)) (m : gmap string string)
  : gmap string string * option error :=
  match ms with
  | [] => (m, None)
  | (k, v) :: ms' =>
      let '(x, e) :=
        match v with
        | Str s => (s, None)
        | Null => (EmptyString, None)
        | _ => (EmptyString, Some (UnmarshalTypeError (kindOf v) "string" k))
        end in
      let '(m', es) := decodeMembers ms' (<[k := x]> m) in
      (m', orElse e es)
  end.

Definition decodeStringMap (v : value) : gmap string string * option error :=
  match v with
  | Object ms => decodeMembers ms ∅
  | Null => (∅, None)
  | _ => (∅, Some (UnmarshalTypeError (kindOf v) "map[string]string" EmptyString))
  end.

(** [json.NewDecoder(body).Decode(&data)] with [var data map[string]string],
    on a body that is read to its end without a transport error: the first
    value of the stream is decoded, what follows it is left unread. A body
    of white space only gives [io.EOF]. *)
Definition Decode (body : string) : gmap string string * option error :=
  match parseFirst body with
  | Scanned v _ => decodeStringMap v
  | _ =>
      match skipSpace body with
      | EmptyString => (∅, Some EOF)
      | String _ _ => (∅, Some SyntaxError)
      end
  end.

(** ** Encoding a slice of strings *)

Definition hexDigit (n : N) : ascii :=
  if (n <? 10)%N then chr (48 + n) else chr (87 + n).

(** [htmlSafeSet]: the ASCII bytes written as they are. *)
Definition htmlSafe (c : ascii) : bool :=
  (32 <=? byte c)%N &&
  negb (Ascii.eqb c dquote || Ascii.eqb c "\" || Ascii.eqb c "<" ||
        Ascii.eqb c ">" || Ascii.eqb c "&").

(** How an ASCII byte outside [htmlSafeSet] is written. *)
Definition escapeByte (c : ascii) : string :=
  if Ascii.eqb c "\" || Ascii.eqb c dquote then String "\" (String c EmptyString)
  else if Ascii.eqb c "008" then "\b"
  else if Ascii.eqb c "012" then "\f"
  else if Ascii.eqb c "010" then "\n"
  else if Ascii.eqb c "013" then "\r"
  else if Ascii.eqb c "009" then "\t"
  else "\u00" +:+ String (hexDigit (N.shiftr (byte c) 4))
                 (String (hexDigit (N.land (byte c) 15)) EmptyString).

(** The body of [appendString] with HTML escaping on, as [json.Marshal] has
    it. [pending] counts continuation bytes still to be copied. *)
Fixpoint encodeBody (pending : nat) (s : string) : string :=
  match s with
  | EmptyString => EmptyString
  | String c r =>
      match pending with
      | S p => String c (encodeBody p r)
      | 0 =>
          if (byte c <? 128)%N then
            if htmlSafe c then String c (encodeBody 0 r)
            else escapeByte c +:+ encodeBody 0 r
          else
            match seqLen c r with
            | 0 => "\ufffd" +:+ encodeBody 0 r
            | S n =>
                match r with
                | String c1 (String c2 r2) =>
                    if Ascii.eqb c "226" && Ascii.eqb c1 "128" &&
                       (Ascii.eqb c2 "168" || Ascii.eqb c2 "169")
                    then "\u202" +:+ String (hexDigit (N.land (byte c2) 15))
                                       (encodeBody 0 r2)
                    else String c (encodeBody n r)
                | _ => String c (encodeBody n r)
                end
            end
      end
  end.

Definition encodeString (s : string) : string :=
  quoted (encodeBody 0 s).

Fixpoint joinComma (l : list string) : string :=
  match l with
  | [] => EmptyString
  | [x] => x
  | x :: l' => x +:+ "," +:+ joinComma l'
  end.

(** [json.Marshal(v)] for a non-nil [v []string]; it cannot fail. *)
Definition Marshal (v : list string) : string :=
  "[" +:+ joinComma (map encodeString v) +:+ "]".

End JSON.

(** ** The configuration file: [loadSymbolsFromConfig] and its helpers *)

Module Config.
Import JSON.

(** [var defaultSymbols = []string{"BTC", "ETH", "SOL"}]. *)
Definition defaultSymbols : list string := ["BTC"; "ETH"; "SOL"].

(** What can be at a path of the file system. *)
Inductive node : Type :=
  | RegularFile (content : string)
  | OpenFails (errno : Errno)    (* present, but [os.Open] fails on it *)
  | ReadFails (errno : Errno).   (* opens, but reading it fails *)

(** The part of the process environment the load touches: the home
    directory (empty when [os.UserHomeDir] fails, its error is dropped), the
    files, whether writing fails, and what has been printed on standard
    output. *)
Record World : Type := mkWorld {
  HOME : string;
  files : gmap string node;
  writeErr : option Errno;
  stdout : list string
}.

Definition print (line : string) (w : World) : World :=
  mkWorld (HOME w) (files w) (writeErr w) (stdout w ++ [line]).

(** An open file: its name and what it is open on. *)
Record File : Type := mkFile { fileName : string; fileNode : node }.

(** [os.Open]: an open file, or a [*PathError]. *)
Definition Open (w : World) (name : string) : error + File :=
  match files w !! name with
  | None => inl (PathError "open" name ENOENT)
  | Some (OpenFails errno) => inl (PathError "open" name errno)
  | Some n => inr (mkFile name n)
  end.

(** [io.ReadAll] on an open file. *)
Definition ReadAll (file : File) : error + string :=
  match fileNode file with
  | RegularFile content => inr content
  | ReadFails errno => inl (PathError "read" (fileName file) errno)
  | OpenFails errno => inl (PathError "read" (fileName file) errno)
  end.

(** [os.WriteFile(name, data, 0644)]: creates or truncates the file. *)
Definition WriteFile (name data : string) (w : World) : option error * World :=
  match writeErr w with
  | Some errno => (Some (PathError "open" name errno), w)
  | None =>
      (None, mkWorld (HOME w) (<[name := RegularFile data]> (files w))
                     (writeErr w) (stdout w))
  end.

(** The [%v] verb of package [fmt] on a [[]string]. *)
Fixpoint joinSpace (l : list string) : string :=
  match l with
  | [] => EmptyString
  | [x] => x
  | x :: l' => x +:+ " " +:+ joinSpace l'
  end.

Definition fmtStrings (l : list string) : string := "[" +:+ joinSpace l +:+ "]".

Definition newline : string := String "010" EmptyString.

(** How a call of [loadSymbolsFromConfig] ends: it returns its pair, or the
    goroutine panics on a nil pointer dereference. *)
Inductive outcome : Type :=
  | Return (symbols : list string) (err : option error)
  | Panic.

(** [createDefaultConfig]. [json.Marshal] of a [[]string] has no error. *)
Definition createDefaultConfig (path : string) (w : World) : option error * World :=
  let defaultConfig := Marshal defaultSymbols in
  match WriteFile path defaultConfig w with
  | (Some err, w') => (Some (wrapError "create config file: " err), w')
  | (None, w') => (None, w')
  end.

(** [parseSymbolsFromConfig]: the error of [json.Unmarshal] is not looked
    at, only what it stored in [symbols] is returned. *)
Definition parseSymbolsFromConfig (file : File) : list (option string) * option error :=
  match ReadAll file with
  | inl err => ([], Some (wrapError "can't marshal default symbols: " err))
  | inr byteValue =>
      let symbols := fst (Unmarshal byteValue) in
      (symbols, None)
  end.

(** The loop [for _, strPtr := range stringPointers { strings = append(strings, *strPtr) }];
    [None] when a nil pointer is dereferenced. *)
Fixpoint derefAll (stringPointers : list (option string)) (strings : list string)
  : option (list string) :=
  match stringPointers with
  | [] => Some strings
  | Some str :: rest => derefAll rest (strings ++ [str])
  | None :: _ => None
  end.

Definition configPathOf (home : string) : string := home +:+ "/.pricetrack.json".

Section Load.

(** The [Error()] method of the error values. *)
Variable Error : error -> string.

(** [loadSymbolsFromConfig]. *)
Definition loadSymbolsFromConfig (w : World) : outcome * World :=
  let homePath := HOME w in
  let configPath := configPathOf homePath in
  match Open w configPath with
  | inl err =>
      if IsNotExist err then
        let w1 := print ("Config file not found, creating a new one with default symbols: "
                         +:+ fmtStrings defaultSymbols +:+ newline) w in
        let '(_, w2) := createDefaultConfig configPath w1 in
        (Return defaultSymbols None, w2)
      else
        let w1 := print ("Error opening config file: " +:+ Error err +:+ newline) w in
        (Return defaultSymbols None, w1)
  | inr configFile =>
      match parseSymbolsFromConfig configFile with
      | (_, Some err) => (Return [] (Some (wrapError EmptyString err)), w)
      | (stringPointers, None) =>
          match derefAll stringPointers [] with
          | Some strings => (Return strings None, w)
          | None => (Panic, w)
          end
      end
  end.

End Load.

(** A rendering of errors to run examples with. A [*url.Error] prints its
    URL with the [%q] verb, between quotation marks (the URLs of the examples
    have no byte that [%q] escapes). *)
Definition errnoText (e : Errno) : string :=
  match e with
  | ENOENT => "no such file or directory"
  | EACCES => "permission denied"
  | EISDIR => "is a directory"
  | EIO => "input/output error"
  | ENOSPC => "no space left on device"
  | EROFS => "read-only file system"
  end.

Fixpoint sampleError (e : error) : string :=
  match e with
  | PathError op path errno => op +:+ " " +:+ path +:+ ": " +:+ errnoText errno
  | UrlError op url reason => op +:+ " " +:+ quoted url +:+ ": " +:+ reason
  | EOF => "EOF"
  | SyntaxError => "invalid JSON text"
  | UnmarshalTypeError val typ field =>
      match field with
      | EmptyString => "json: cannot unmarshal " +:+ val +:+ " into Go value of type " +:+ typ
      | _ => "json: cannot unmarshal " +:+ val +:+ " into Go struct field ." +:+ field
               +:+ " of type " +:+ typ
      end
  | wrapError prefix err => prefix +:+ sampleError err
  end.

(** Config texts to run examples with. [defaultConfigText] is
    [["BTC","ETH","SOL"]], [readmeConfigText] is the example of the README,
    [["TRX", "PEPE", "SOL", "BNB"]], [duplicateConfigText] repeats one of its
    symbols, [nullConfigText] is [["BTC", null]] and [truncatedConfigText]
    is an object cut short, [{"symbols": []. *)
Definition defaultConfigText : string :=
  "[" +:+ quoted "BTC" +:+ "," +:+ quoted "ETH" +:+ "," +:+ quoted "SOL" +:+ "]".

Definition readmeConfigText : string :=
  "[" +:+ quoted "TRX" +:+ ", " +:+ quoted "PEPE" +:+ ", " +:+ quoted "SOL" +:+ ", "
      +:+ quoted "BNB" +:+ "]".

Definition duplicateConfigText : string :=
  "[" +:+ quoted "TRX" +:+ ", " +:+ quoted "PEPE" +:+ ", " +:+ quoted "SOL" +:+ ", "
      +:+ quoted "BNB" +:+ ", " +:+ quoted "SOL" +:+ "]".

Definition nullConfigText : string := "[" +:+ quoted "BTC" +:+ ", null]".

Definition truncatedConfigText : string := "{" +:+ quoted "symbols" +:+ ": [".

(** A home directory holding one config file with the given content. *)
Definition worldWithConfig (content : string) : World :=
  mkWorld "/home/u" {[ configPathOf "/home/u" := RegularFile content ]} None [].

(** A home directory without a config file. *)
Definition freshWorld : World := mkWorld "/home/u" ∅ None [].

(** The config path is there, but opening it is refused. *)
Definition lockedWorld : World :=
  mkWorld "/home/u" {[ configPathOf "/home/u" := OpenFails EACCES ]} None [].

(** The config path can be opened and not read (it is a directory). *)
Definition dirWorld : World :=
  mkWorld "/home/u" {[ configPathOf "/home/u" := ReadFails EISDIR ]} None [].

End Config.

(** ** The widget: [updateLabel] and [updatePrice] *)

Module Widget.
Import JSON Format.

(** What [http.Get] hands back: a response with a status and a body (read to
    its end by the decoder), or an error. *)
Record Response : Type := mkResponse { StatusCode : nat; Body : string }.

Inductive GetResult : Type :=
  | GetOk (resp : Response)
  | GetErr (err : error).

(** The fields of [BinanceWidget] the refresh uses. [priceLabels] maps a
    symbol to its [*QLabel]; every key owns the label it points to, so the
    map is kept as symbol to label text. *)
Record BinanceWidget : Type := mkWidget {
  apiUrl : string;
  priceLabels : gmap string string;
  symbols : list string
}.

(** [priceLabels[symbol].SetText(text)]. [updateLabel] is called with the
    symbols of the list only, and each of them has a label; for a key
    without a label the model leaves the widget as it is. *)
Definition SetText (symbol text : string) (w : BinanceWidget) : BinanceWidget :=
  match priceLabels w !! symbol with
  | Some _ => mkWidget (apiUrl w) (<[symbol := text]> (priceLabels w)) (symbols w)
  | None => w
  end.

(** The label loop of [initUI]: one label reading [Loading...] per symbol. *)
Definition initLabels (w : BinanceWidget) : BinanceWidget :=
  mkWidget (apiUrl w)
           (fold_left (fun m symbol => <[symbol := "Loading..."]> m) (symbols w) (priceLabels w))
           (symbols w).

(** [NewBinanceWidget], up to the first refresh. *)
Definition NewBinanceWidget (symbols : list string) : BinanceWidget :=
  initLabels (mkWidget "https://api.binance.com/api/v3/ticker/price?symbol=" ∅ symbols).

Section Refresh.

Variable Error : error -> string.

(** The network during one refresh: what [http.Get] gives for a URL. *)
Variable httpGet : string -> GetResult.

(** [updateLabel]. The status of the response is not looked at; a key that
    is missing from [data] reads as the empty string. Closing the body and
    setting the point size of the label's font do not change its text and are
    left out. *)
Definition updateLabel (symbol : string) (w : BinanceWidget) : BinanceWidget :=
  let url := apiUrl w +:+ symbol +:+ "USDT" in
  match httpGet url with
  | GetErr err => SetText symbol ("Error: " +:+ Error err) w
  | GetOk resp =>
      match Decode (Body resp) with
      | (_, Some err) => SetText symbol ("Error: " +:+ Error err) w
      | (data, None) =>
          let price := default EmptyString (data !! "price") in
          let price := GoStrings.TrimRight price "0" in
          let price :=
            if GoStrings.HasSuffix price "."
            then GoStrings.sliceTo price (String.length price - 1) else price in
          SetText symbol (priceText symbol price) w
      end
  end.

(** The values a [map[string]string] takes as a member without a type
    error: strings, and [null], which leaves the empty string. *)
Definition stringOrNull (v : value) : bool :=
  match v with
  | Str _ | Null => true
  | _ => false
  end.

(** The bodies for which [Decode] has no error, as [Decode_error_iff] shows:
    their first JSON value is [null] or an object whose members are all
    strings or [null]. What follows the first value is not looked at. *)
Definition readsAsStringMap (body : string) : bool :=
  match parseFirst body with
  | Scanned Null _ => true
  | Scanned (Object ms) _ => forallb (fun kv => stringOrNull kv.2) ms
  | _ => false
  end.

(** The text [updateLabel] puts on the label of [symbol]. *)
Definition resultText (apiUrl symbol : string) : string :=
  match httpGet (apiUrl +:+ symbol +:+ "USDT") with
  | GetErr err => "Error: " +:+ Error err
  | GetOk resp =>
      match Decode (Body resp) with
      | (_, Some err) => "Error: " +:+ Error err
      | (data, None) => successText symbol (default EmptyString (data !! "price"))
      end
  end.

(** *** One refresh cycle as a transition system

    [updatePrice] runs, for each symbol, [wg.Add(1)] and then the [go]
    statement, two steps between which the goroutines already started can
    run; then it blocks in [wg.Wait()] until the counter is zero. A goroutine
    runs [updateLabel] and then its deferred [wg.Done()]. *)

Inductive phase : Type :=
  | Started     (* launched, [updateLabel] not yet finished *)
  | Updated.    (* [updateLabel] has returned, [wg.Done()] still to run *)

Inductive pc : Type :=
  | Spawning (rest : list string)   (* at the head of the loop; at [wg.Wait()] when [rest] is empty *)
  | Launching (symbol : string) (rest : list string)
                                    (* [wg.Add(1)] done, the [go] statement still to run *)
  | Returned.                       (* [updatePrice] has returned *)

(** The calls of [wg.Add(1)] whose goroutine is not started yet. *)
Definition pending (p : pc) : Z :=
  match p with
  | Launching _ _ => 1
  | _ => 0
  end.

Record cycle : Type := mkCycle {
  main : pc;
  counter : Z;                       (* the WaitGroup counter *)
  units : list (string * phase);     (* the goroutines that have not ended *)
  ended : list string;               (* the symbols of those that have *)
  widget : BinanceWidget
}.

Definition start (w : BinanceWidget) : cycle :=
  mkCycle (Spawning (symbols w)) 0 [] [] w.

Inductive step : cycle -> cycle -> Prop :=
  | step_add symbol rest n us es w :
      step (mkCycle (Spawning (symbol :: rest)) n us es w)
           (mkCycle (Launching symbol rest) (n + 1) us es w)
  | step_go symbol rest n us es w :
      step (mkCycle (Launching symbol rest) n us es w)
           (mkCycle (Spawning rest) n (us ++ [(symbol, Started)]) es w)
  | step_update p symbol us1 us2 n es w :
      step (mkCycle p n (us1 ++ (symbol, Started) :: us2) es w)
           (mkCycle p n (us1 ++ (symbol, Updated) :: us2) es (updateLabel symbol w))
  | step_done p symbol us1 us2 n es w :
      step (mkCycle p n (us1 ++ (symbol, Updated) :: us2) es w)
           (mkCycle p (n - 1) (us1 ++ us2) (symbol :: es) w)
  | step_return us es w :
      step (mkCycle (Spawning []) 0 us es w)
           (mkCycle Returned 0 us es w).

(** The states a refresh of [w] can be in. *)
Definition reachable (w : BinanceWidget) : cycle -> Prop := rtc step (start w).

(** *** The invariant of a refresh of [w0] *)

(** The symbols whose goroutine has ended or has set its label. *)
Definition shown (w0 : BinanceWidget) (st : cycle) : Prop :=
  forall s, s ∈ ended st \/ (s, Updated) ∈ units st ->
            is_Some (priceLabels w0 !! s) ->
            priceLabels (widget st) !! s = Some (resultText (apiUrl w0) s).

Record inv (w0 : BinanceWidget) (st : cycle) : Prop := mkInv {
  inv_counter : counter st = (Z.of_nat (length (units st)) + pending (main st))%Z;
  inv_apiUrl : apiUrl (widget st) = apiUrl w0;
  inv_symbols : symbols (widget st) = symbols w0;
  inv_labels : forall s, is_Some (priceLabels (widget st) !! s) <->
                         is_Some (priceLabels w0 !! s);
  inv_units :
    match main st with
    | Spawning rest => symbols w0 ≡ₚ (ended st ++ map fst (units st)) ++ rest
    | Launching symbol rest =>
        symbols w0 ≡ₚ (ended st ++ map fst (units st)) ++ symbol :: rest
    | Returned => units st = [] /\ symbols w0 ≡ₚ ended st
    end;
  inv_shown : shown w0 st
}.

(** One schedule, for running the cycle: every goroutine is run to its end
    as soon as it is launched. *)
Definition updatePriceSeq (w : BinanceWidget) : BinanceWidget :=
  fold_left (fun w symbol => updateLabel symbol w) (symbols w) w.

End Refresh.

(** The body of a quote, [{"symbol":"<symbol>USDT","price":"<price>"}], and
    a body without a price, [{"msg":"Not Found"}]. *)
Definition tickerBody (symbol price : string) : string :=
  "{" +:+ quoted "symbol" +:+ ":" +:+ quoted (symbol +:+ "USDT") +:+ ","
      +:+ quoted "price" +:+ ":" +:+ quoted price +:+ "}".

Definition notFoundBody : string := "{" +:+ quoted "msg" +:+ ":" +:+ quoted "Not Found" +:+ "}".

(** A network for examples: the BTC quote arrives, the ETH request times
    out, every other pair gets an empty object. *)
Definition sampleNet (url : string) : GetResult :=
  if String.eqb url "https://api.binance.com/api/v3/ticker/price?symbol=BTCUSDT"
  then GetOk (mkResponse 200 (tickerBody "BTC" "50000.12000000"))
  else if String.eqb url "https://api.binance.com/api/v3/ticker/price?symbol=ETHUSDT"
  then GetErr (UrlError "Get" url "context deadline exceeded")
  else GetOk (mkResponse 200 "{}").

(** A network with every kind of answer: the BTC quote arrives, the ETH
    request times out, the SOL request meets a gateway page that is not JSON,
    the DOGE request gets Binance's reply to an unknown pair,
    [{"code":-1121,"msg":"Invalid symbol."}], the XRP request gets a quote
    with text after it, and every other pair gets [null]. *)
Definition gatewayBody : string := "<html>Bad Gateway</html>".

Definition invalidSymbolBody : string :=
  "{" +:+ quoted "code" +:+ ":-1121," +:+ quoted "msg" +:+ ":"
      +:+ quoted "Invalid symbol." +:+ "}".

Definition faultyNet (url : string) : GetResult :=
  if String.eqb url "https://api.binance.com/api/v3/ticker/price?symbol=BTCUSDT"
  then GetOk (mkResponse 200 (tickerBody "BTC" "50000.12000000"))
  else if String.eqb url "https://api.binance.com/api/v3/ticker/price?symbol=ETHUSDT"
  then GetErr (UrlError "Get" url "context deadline exceeded")
  else if String.eqb url "https://api.binance.com/api/v3/ticker/price?symbol=SOLUSDT"
  then GetOk (mkResponse 502 gatewayBody)
  else if String.eqb url "https://api.binance.com/api/v3/ticker/price?symbol=DOGEUSDT"
  then GetOk (mkResponse 400 invalidSymbolBody)
  else if String.eqb url "https://api.binance.com/api/v3/ticker/price?symbol=XRPUSDT"
  then GetOk (mkResponse 200 (tickerBody "XRP" "1.50" +:+ " <html>"))
  else GetOk (mkResponse 200 "null").

(** Networks that answer every request the same way. *)
Definition constNet (status : nat) (body : string) : string -> GetResult :=
  fun _ => GetOk (mkResponse status body).

(** The state after a refresh of the one symbol BTC on [sampleNet]. *)
Definition finishedCycle : cycle :=
  mkCycle Returned 0 [] ["BTC"]
          (updateLabel Config.sampleError sampleNet "BTC" (NewBinanceWidget ["BTC"])).

(** A widget whose symbols meet every answer of [faultyNet]. *)
Definition faultyWidget : BinanceWidget :=
  NewBinanceWidget ["BTC"; "ETH"; "SOL"; "DOGE"; "XRP"; "ADA"].

(** A state in the middle of a refresh of BTC and ETH on [sampleNet]: the
    goroutine of BTC has set its label and not yet run [wg.Done()], and
    [wg.Add(1)] has run for ETH, whose goroutine is not started yet. *)
Definition midCycle : cycle :=
  mkCycle (Launching "ETH" []) 2 [("BTC", Updated)] []
          (updateLabel Config.sampleError sampleNet "BTC" (NewBinanceWidget ["BTC"; "ETH"])).

End Widget.

(** * More of the program

    The refresh as a schedule of goroutines, the values a config file can
    hold, prices as numbers, and the widget with its labels, colours and
    window position. *)

(** ** Which labels a refresh has set *)

Module Schedule.
Import Widget.

(** The symbols a goroutine of the cycle has set the label of. *)
Definition touched (st : cycle) (s : string) : Prop :=
  s ∈ ended st \/ (s, Updated) ∈ units st.

(** The labels no goroutine has set yet are those of the widget the cycle
    started from. *)
Definition kept (w0 : BinanceWidget) (st : cycle) : Prop :=
  forall s, ~ touched st s -> priceLabels (widget st) !! s = priceLabels w0 !! s.

End Schedule.

(** ** Replies that are not quotes *)

Module Reply.

(** A member of a decoded object that [map[string]string] cannot hold. *)
Definition notString (v : JSON.value) : bool :=
  match v with
  | JSON.Str _ | JSON.Null => false
  | _ => true
  end.

End Reply.

(** ** Config values *)

Module ConfigValues.
Import JSON Config.

(** The symbol an element of the config array becomes, when it is not
    [null]: a string stays, every other value gives the empty string. *)
Definition symbolOf (v : value) : string :=
  match v with
  | Str s => s
  | _ => EmptyString
  end.

Definition isNull (v : value) : bool :=
  match v with
  | Null => true
  | _ => false
  end.

(** A config array with elements of several types, [["BTC", 5, {}, true]],
    and an empty one. *)
Definition mixedConfigText : string := "[" +:+ quoted "BTC" +:+ ", 5, {}, true]".

Definition objectConfigText : string :=
  "{" +:+ quoted "symbols" +:+ ": [" +:+ quoted "BTC" +:+ "]}".

End ConfigValues.

(** ** Prices as numbers *)

Module Decimal.
Import UTF8 JSON GoStrings.

(** A string of decimal digits only (the empty string included). *)
Fixpoint allDigits (s : string) : bool :=
  match s with
  | EmptyString => true
  | String c r => isDigit c && allDigits r
  end.

(** The number a digit string denotes, most significant digit first. *)
Fixpoint digitsValFrom (acc : N) (s : string) : N :=
  match s with
  | EmptyString => acc
  | String c r => digitsValFrom (acc * 10 + (byte c - 48))%N r
  end.

Definition digitsVal (s : string) : N := digitsValFrom 0 s.

(** The parts before and after the first point. *)
Fixpoint splitPoint (s : string) : option (string * string) :=
  match s with
  | EmptyString => None
  | String c r =>
      if Ascii.eqb c "." then Some (EmptyString, r)
      else match splitPoint r with
           | Some (i, f) => Some (String c i, f)
           | None => None
           end
  end.

(** A decimal numeral as mantissa and number of fraction digits: [12.50] is
    [(1250, 2)], [7] is [(7, 0)]. Digits only, with at most one point. *)
Definition readDecimal (s : string) : option (N * nat) :=
  match splitPoint s with
  | Some (i, f) =>
      if allDigits i && allDigits f
      then Some (digitsVal (i +:+ f), String.length f) else None
  | None => if allDigits s then Some (digitsVal s, 0) else None
  end.

(** Two readings denote the same number. *)
Definition sameNumber (a b : N * nat) : Prop :=
  (fst a * 10 ^ N.of_nat (snd b) = fst b * 10 ^ N.of_nat (snd a))%N.

End Decimal.

(** ** Labels, colours, the mouse, [main] *)

Module Shell.
Import JSON Config.

(** *** Go's [int] *)

(** The value of a 64-bit two's complement integer. *)
Definition wrapInt (z : Z) : Z :=
  ((z + 9223372036854775808) mod 18446744073709551616 - 9223372036854775808)%Z.

Definition addInt (a b : Z) : Z := wrapInt (a + b).
Definition subInt (a b : Z) : Z := wrapInt (a - b).

(** The value of a C [int], 32 bits: what the Qt binding cuts a Go [int] to
    when it hands it to [QWidget::move]. *)
Definition wrapCInt (z : Z) : Z :=
  ((z + 2147483648) mod 4294967296 - 2147483648)%Z.

(** *** Labels and their colour *)

(** A colour by its red, green and blue components, as [QColor.Red()] and
    the others give them: 0 to 255. *)
Record QColor : Type := mkColor { Red : Z; Green : Z; Blue : Z }.

Definition green : QColor := mkColor 0 255 0.
Definition magenta : QColor := mkColor 255 0 255.

(** [fmt.Sprintf("color: rgb(%d, %d, %d)", r, g, b)]. *)
Definition colorSheet (c : QColor) : string :=
  "color: rgb(" +:+ pretty (Red c) +:+ ", " +:+ pretty (Green c) +:+ ", "
                +:+ pretty (Blue c) +:+ ")".

(** A [QLabel]: its text, its style sheet, and the colour of its text, which
    is what [Palette().Color(QPalette__Active, QPalette__WindowText)] reads.
    A style sheet of the form [color: rgb(r, g, b)] sets that colour. *)
Record QLabel : Type := mkLabel { text : string; styleSheet : string; color : QColor }.

(** [label.SetStyleSheet(sheet)] for the sheet that [colorSheet c] writes. *)
Definition SetColorSheet (c : QColor) (label : QLabel) : QLabel :=
  mkLabel (text label) (colorSheet c) c.

(** [label.SetText(text)]. *)
Definition SetText (t : string) (label : QLabel) : QLabel :=
  mkLabel t (styleSheet label) (color label).

(** [widgets.NewQLabel2("Loading...", nil, 0)] followed by
    [label.SetStyleSheet("color: rgb(0, 255, 0)")]. *)
Definition loadingLabel : QLabel := SetColorSheet green (mkLabel "Loading..." EmptyString green).

(** *** The widget *)

(** [BinanceWidget]: the labels are kept in the order in which the layout
    got them, and [priceLabels] maps a symbol to the place of its label among
    them. [pos] is the position of the window, [X()] and [Y()]. *)
Record BinanceWidget : Type := mkWidget {
  apiUrl : string;
  labels : list QLabel;
  priceLabels : gmap string nat;
  symbols : list string;
  oldPos : Z * Z;
  pos : Z * Z
}.

(** One turn of the loop of [initUI]: a new label is added to the layout
    and stored under the symbol, replacing what the symbol pointed to. *)
Definition addLabel (w : BinanceWidget) (symbol : string) : BinanceWidget :=
  mkWidget (apiUrl w) (labels w ++ [loadingLabel])
           (<[symbol := length (labels w)]> (priceLabels w))
           (symbols w) (oldPos w) (pos w).

(** The label loop of [initUI]. *)
Definition initUI (w : BinanceWidget) : BinanceWidget :=
  fold_left addLabel (symbols w) w.

(** [NewBinanceWidget], followed by the label loop of [initUI]: what the
    widget is before the first refresh. [oldPos] is [core.NewQPoint()], the
    origin; where the window is at first is up to the window system. *)
Definition NewBinanceWidget (symbols : list string) (at_ : Z * Z) : BinanceWidget :=
  initUI (mkWidget "https://api.binance.com/api/v3/ticker/price?symbol="
                   [] ∅ symbols (0, 0)%Z at_).

Section Events.

Variable Error : error -> string.
Variable httpGet : string -> Widget.GetResult.

(** How a handler ends. What a method call on a label that is not there
    does is up to the Qt binding: the model stops at it. *)
Inductive result : Type :=
  | Done (w : BinanceWidget)
  | IndexOutOfRange     (* [w.symbols[0]] on an empty slice panics *)
  | NilLabel.           (* [priceLabels] holds no label for the symbol *)

(** [updateLabel]: the text is the one [Widget.updateLabel] computes,
    [Widget.resultText]; it goes to the label [priceLabels] holds for the
    symbol. *)
Definition updateLabel (symbol : string) (w : BinanceWidget) : result :=
  match priceLabels w !! symbol with
  | Some i =>
      Done (mkWidget (apiUrl w)
              (alter (SetText (Widget.resultText Error httpGet (apiUrl w) symbol)) i (labels w))
              (priceLabels w) (symbols w) (oldPos w) (pos w))
  | None => NilLabel
  end.

(** [mousePressEvent]: [oldPos] becomes the global position of the event. *)
Definition mousePressEvent (globalPos : Z * Z) (w : BinanceWidget) : BinanceWidget :=
  mkWidget (apiUrl w) (labels w) (priceLabels w) (symbols w) globalPos (pos w).

(** [mouseMoveEvent]: the differences and sums are Go [int]s; [w.Move2]
    gets them as C [int]s and is taken to put the window where it is asked
    to, so that [X()] and [Y()] read the place back at the next move. *)
Definition mouseMoveEvent (globalPos : Z * Z) (w : BinanceWidget) : BinanceWidget :=
  let deltaX := subInt (fst globalPos) (fst (oldPos w)) in
  let deltaY := subInt (snd globalPos) (snd (oldPos w)) in
  mkWidget (apiUrl w) (labels w) (priceLabels w) (symbols w) globalPos
           (wrapCInt (addInt (fst (pos w)) deltaX), wrapCInt (addInt (snd (pos w)) deltaY)).

(** The loop of [contextMenuEvent]: the sheet is set on every label
    [priceLabels] holds. *)
Definition recolor (c : QColor) (held : list nat) (ls : list QLabel) : list QLabel :=
  foldr (fun i ls => alter (SetColorSheet c) i ls) ls held.

(** [contextMenuEvent]. The colour read is that of the label of the first
    symbol; [label.Font().SetPointSize(12)] works on a copy of the font and
    is left out. *)
Definition contextMenuEvent (w : BinanceWidget) : result :=
  match symbols w with
  | [] => IndexOutOfRange
  | first :: _ =>
      match priceLabels w !! first ≫= (fun i => labels w !! i) with
      | None => NilLabel
      | Some label =>
          let currentColor := color label in
          let newColor := mkColor (255 - Red currentColor) (255 - Green currentColor)
                                  (255 - Blue currentColor) in
          Done (mkWidget (apiUrl w)
                         (recolor newColor (map_to_list (priceLabels w)).*2 (labels w))
                         (priceLabels w) (symbols w) (oldPos w) (pos w))
      end
  end.

(** What happens to the widget once it is built: a goroutine of a refresh
    runs [updateLabel] for its symbol, the context menu is asked for, a mouse
    button goes down, the mouse moves. *)
Inductive event : Type :=
  | Fetched (symbol : string)
  | ContextMenu
  | MousePress (globalPos : Z * Z)
  | MouseMove (globalPos : Z * Z).

Definition handle (e : event) (w : BinanceWidget) : result :=
  match e with
  | Fetched symbol => updateLabel symbol w
  | ContextMenu => contextMenuEvent w
  | MousePress g => Done (mousePressEvent g w)
  | MouseMove g => Done (mouseMoveEvent g w)
  end.

(** The events one after the other, up to the first that panics. *)
Fixpoint run (events : list event) (w : BinanceWidget) : result :=
  match events with
  | [] => Done w
  | e :: rest =>
      match handle e w with
      | Done w' => run rest w'
      | failed => failed
      end
  end.

(** How [main] ends before the event loop runs: [log.Fatal], a panic, or a
    widget to show. *)
Inductive startup : Type :=
  | Fatal (err : error)
  | Crash
  | Running (w : BinanceWidget).

(** [main], up to [widget.Show()]. *)
Definition main (at_ : Z * Z) (world : World) : startup * World :=
  match loadSymbolsFromConfig Error world with
  | (Return symbols (Some err), world') => (Fatal err, world')
  | (Return symbols None, world') => (Running (NewBinanceWidget symbols at_), world')
  | (Panic, world') => (Crash, world')
  end.

(** The labels whose symbol satisfies [P] show the text of the symbol's
    fetch, for the symbol list [l] and the URL prefix [url]. *)
Definition showing (l : list string) (url : string) (P : string -> Prop)
    (w : BinanceWidget) : Prop :=
  forall i s label, l !! i = Some s -> labels w !! i = Some label -> P s ->
                    text label = Widget.resultText Error httpGet url s.

End Events.

Definition isContextMenu (e : event) : bool :=
  match e with ContextMenu => true | _ => false end.

(** The colour [contextMenuEvent] computes from the current one. *)
Definition invert (c : QColor) : QColor :=
  mkColor (255 - Red c) (255 - Green c) (255 - Blue c).

(** What no handler changes of a widget [w0]: its URL, its symbols, its
    map, the number of its labels, and the labels the map does not hold. *)
Record stable (w0 w : BinanceWidget) : Prop := mkStable {
  stable_apiUrl : apiUrl w = apiUrl w0;
  stable_symbols : symbols w = symbols w0;
  stable_priceLabels : priceLabels w = priceLabels w0;
  stable_length : length (labels w) = length (labels w0);
  stable_others :
    forall i, (forall s, priceLabels w0 !! s <> Some i) -> labels w !! i = labels w0 !! i
}.

(** Every label the map holds has the colour [c] and the sheet for it. *)
Definition uniform (c : QColor) (w : BinanceWidget) : Prop :=
  forall s i label, priceLabels w !! s = Some i -> labels w !! i = Some label ->
                    color label = c /\ styleSheet label = colorSheet c.

(** The colour of the held labels after a run of events, from the colour
    [c]: every context menu event inverts it. *)
Fixpoint palette (events : list event) (c : QColor) : QColor :=
  match events with
  | [] => c
  | ContextMenu :: rest => palette rest (invert c)
  | _ :: rest => palette rest c
  end.

(** The colour a new widget's labels have after a run of events: green
    after an even number of context menu events, magenta after an odd one. *)
Definition colorAfter (events : list event) : QColor :=
  if Nat.even (length (filter (fun e => isContextMenu e = true) events))
  then green else magenta.

(** The last position of a drag that starts at [g0] and moves through [gs]. *)
Definition lastPos (g0 : Z * Z) (gs : list (Z * Z)) : Z * Z := default g0 (last gs).

(** Where a drag from [g0] through [gs] takes a window that is at [p],
    before the cut to C [int]s. *)
Definition dragTarget (p g0 : Z * Z) (gs : list (Z * Z)) : Z * Z :=
  (fst p + (fst (lastPos g0 gs) - fst g0), snd p + (snd (lastPos g0 gs) - snd g0))%Z.

(** A press at [g0] followed by moves through [gs]. *)
Definition drag (g0 : Z * Z) (gs : list (Z * Z)) (w : BinanceWidget) : BinanceWidget :=
  fold_left (fun w g => mouseMoveEvent g w) gs (mousePressEvent g0 w).

(** The fetches of a run of events are for symbols of [l] only, as those
    of [updatePrice] are. *)
Definition fetchesWithin (l : list string) (events : list event) : Prop :=
  forall s, Fetched s ∈ events -> s ∈ l.

(** Events and widgets to run examples with: one list has BTC twice. *)
Definition sampleEvents : list event :=
  [Fetched "BTC"; ContextMenu; Fetched "ETH"; MousePress (100, 100)%Z; MouseMove (130, 90)%Z].

Definition sampleRun : BinanceWidget :=
  match run Config.sampleError Widget.sampleNet sampleEvents
            (NewBinanceWidget ["BTC"; "ETH"; "BTC"] (10, 20)%Z) with
  | Done w => w
  | _ => NewBinanceWidget [] (0, 0)%Z
  end.

Definition sampleRun2 : BinanceWidget :=
  match run Config.sampleError Widget.sampleNet sampleEvents
            (NewBinanceWidget ["BTC"; "ETH"] (10, 20)%Z) with
  | Done w => w
  | _ => NewBinanceWidget [] (0, 0)%Z
  end.

(** A coordinate as Qt hands it out: a 32-bit integer. *)
Definition inRange (z : Z) : Prop := (-2147483648 <= z < 2147483648)%Z.

Definition pointInRange (p : Z * Z) : Prop := inRange (fst p) /\ inRange (snd p).

End Shell.

(** * Properties *)

(** ** Facts about trimming *)

Module TrimFacts.
Import GoStrings Format.

Lemma app_cons (a : ascii) (s t : string) :
  String a s +:+ t = String a (s +:+ t).
Proof. reflexivity. Qed.

Lemma app_empty_l (s : string) : EmptyString +:+ s = s.
Proof. reflexivity. Qed.

Lemma string_length_app (s t : string) :
  String.length (s +:+ t) = String.length s + String.length t.
Proof. induction s as [|a s IH]; [reflexivity|]. rewrite app_cons. simpl. now rewrite IH. Qed.

Lemma lastByte_cons (a b : ascii) (s : string) :
  lastByte (String a (String b s)) = lastByte (String b s).
Proof. reflexivity. Qed.

(** A string whose last byte is [c] is some [u] followed by [c]. *)
Lemma lastByte_Some (s : string) (c : ascii) :
  lastByte s = Some c -> exists u, s = u +:+ String c EmptyString.
Proof.
  induction s as [|a s IH]; [discriminate|].
  destruct s as [|b s].
  - simpl. intros [= ->]. now exists EmptyString.
  - rewrite lastByte_cons. intros H. destruct (IH H) as [u Hu].
    exists (String a u). now rewrite app_cons, <- Hu.
Qed.

(** The trim gives back the input without a run of [c] at its end, and what
    is left does not end in [c]. *)
Lemma trimRightByte_spec (s : string) (c : ascii) :
  exists k, s = trimRightByte s c +:+ Repeat (String c EmptyString) k /\
            lastByte (trimRightByte s c) <> Some c.
Proof.
  induction s as [|a r IH].
  - exists 0. split; [reflexivity|discriminate].
  - destruct IH as (k & Hr & Hlast). simpl.
    destruct (trimRightByte r c) as [|b t] eqn:Ht.
    + destruct (Ascii.eqb a c) eqn:Hac.
      * apply Ascii.eqb_eq in Hac. subst a. exists (S k). split; [|discriminate].
        rewrite app_empty_l in *. simpl. now rewrite app_cons, app_empty_l, <- Hr.
      * exists k. split.
        -- rewrite app_cons. now rewrite <- Hr.
        -- simpl. intros [= ->]. now rewrite Ascii.eqb_refl in Hac.
    + exists k. split.
      * rewrite app_cons. now rewrite <- Hr.
      * now rewrite lastByte_cons.
Qed.

(** The decomposition determines the trim. *)
Lemma trimRightByte_app_repeat (t : string) (c : ascii) (k : nat) :
  lastByte t <> Some c ->
  trimRightByte (t +:+ Repeat (String c EmptyString) k) c = t.
Proof.
  intros Hlast. induction t as [|a t IH].
  - rewrite app_empty_l. clear Hlast. induction k as [|k IHk]; [reflexivity|].
    simpl Repeat. rewrite app_cons, app_empty_l. simpl.
    now rewrite IHk, Ascii.eqb_refl.
  - rewrite app_cons. simpl. destruct t as [|b t].
    + rewrite app_empty_l in *.
      assert (Hz : trimRightByte (Repeat (String c EmptyString) k) c = EmptyString).
      { clear. induction k as [|k IHk]; [reflexivity|].
        simpl Repeat. rewrite app_cons, app_empty_l. simpl.
        now rewrite IHk, Ascii.eqb_refl. }
      rewrite Hz. destruct (Ascii.eqb a c) eqn:Hac; [|reflexivity].
      apply Ascii.eqb_eq in Hac. subst a. now contradiction Hlast.
    + rewrite IH; [reflexivity|]. now rewrite lastByte_cons in Hlast.
Qed.

Lemma HasSuffix_byte (s : string) (c : ascii) :
  HasSuffix s (String c EmptyString) = true <-> lastByte s = Some c.
Proof.
  unfold HasSuffix. induction s as [|a s IH]; [simpl; split; discriminate|].
  destruct s as [|b s].
  - simpl. destruct (Ascii.eqb a c) eqn:Hac.
    + apply Ascii.eqb_eq in Hac. now subst.
    + split; [discriminate|]. intros [= ->]. now rewrite Ascii.eqb_refl in Hac.
  - rewrite lastByte_cons, <- IH. clear IH.
    simpl String.length. rewrite !Nat.sub_succ, !Nat.sub_0_r. reflexivity.
Qed.

Lemma sliceTo_snoc (u : string) (c : ascii) :
  sliceTo (u +:+ String c EmptyString)
          (String.length (u +:+ String c EmptyString) - 1) = u.
Proof.
  rewrite string_length_app. simpl String.length.
  replace (String.length u + 1 - 1) with (String.length u) by lia.
  unfold sliceTo. induction u as [|a u IH]; [reflexivity|].
  rewrite app_cons. simpl. now rewrite IH.
Qed.

(** [trimPrice] in one equation: with [t] the input without its trailing
    zeroes, the result is [t] without one trailing point. *)
Lemma trimPrice_cases (price : string) :
  exists t k,
    price = t +:+ Repeat "0" k /\ lastByte t <> Some "0"%char /\
    ((exists u, t = u +:+ "." /\ trimPrice price = u) \/
     (lastByte t <> Some "."%char /\ trimPrice price = t)).
Proof.
  destruct (trimRightByte_spec price "0") as (k & Hk & Hlast).
  exists (trimRightByte price "0"), k. split; [exact Hk|]. split; [exact Hlast|].
  unfold trimPrice. change (TrimRight price "0") with (trimRightByte price "0").
  destruct (HasSuffix (trimRightByte price "0") ".") eqn:Hs.
  - left. apply HasSuffix_byte in Hs. destruct (lastByte_Some _ _ Hs) as [u Hu].
    exists u. split; [exact Hu|]. rewrite Hu. apply sliceTo_snoc.
  - right. split; [|reflexivity]. intros H. apply HasSuffix_byte in H. congruence.
Qed.

(** A string with the byte [c] in it splits at the first [c]. *)
Lemma ContainsByte_split (s : string) (c : ascii) :
  ContainsByte s c = true ->
  exists i f, s = i +:+ String c f /\ ContainsByte i c = false.
Proof.
  induction s as [|a s IH]; [discriminate|]. simpl.
  destruct (Ascii.eqb a c) eqn:Hac.
  - intros _. apply Ascii.eqb_eq in Hac. subst a. now exists EmptyString, s.
  - simpl. intros H. destruct (IH H) as (i & f & -> & Hi).
    exists (String a i), f. split; [reflexivity|]. simpl. now rewrite Hac.
Qed.

(** The trim does not reach past a byte that stays. *)
Lemma trimRightByte_app_l (a b : string) (c : ascii) :
  trimRightByte b c <> EmptyString ->
  trimRightByte (a +:+ b) c = a +:+ trimRightByte b c.
Proof.
  intros Hb. induction a as [|x a IH]; [reflexivity|].
  rewrite !app_cons. simpl. rewrite IH.
  destruct (a +:+ trimRightByte b c) as [|y r] eqn:E; [|reflexivity].
  destruct a; [|discriminate]. now rewrite app_empty_l in E.
Qed.

Lemma trimRightByte_keeps (d c : ascii) (f : string) :
  d <> c -> trimRightByte (String d f) c = String d (trimRightByte f c).
Proof.
  intros Hne. simpl. destruct (trimRightByte f c); [|reflexivity].
  destruct (Ascii.eqb d c) eqn:E; [|reflexivity].
  apply Ascii.eqb_eq in E. contradiction.
Qed.

Lemma sliceTo_app_l (a b : string) (n : nat) :
  sliceTo (a +:+ b) (String.length a + n) = a +:+ sliceTo b n.
Proof.
  unfold sliceTo. induction a as [|x a IH]; [reflexivity|].
  rewrite !app_cons. simpl. now rewrite IH.
Qed.

(** With a decimal point in the price, what stands before the first point
    is the start of the trimmed price. *)
Lemma trimPrice_keeps_integer (i f : string) :
  exists f', trimPrice (i +:+ String "." f) = i +:+ f'.
Proof.
  unfold trimPrice. change (TrimRight (i +:+ String "." f) "0")
    with (trimRightByte (i +:+ String "." f) "0").
  assert (Hk : trimRightByte (String "." f) "0" = String "." (trimRightByte f "0"))
    by (apply trimRightByte_keeps; discriminate).
  rewrite trimRightByte_app_l by (rewrite Hk; discriminate).
  rewrite Hk. set (t := String "." (trimRightByte f "0")).
  destruct (HasSuffix (i +:+ t) "."); [|now exists t].
  exists (sliceTo t (String.length t - 1)).
  rewrite string_length_app.
  replace (String.length i + String.length t - 1)
    with (String.length i + (String.length t - 1)) by (subst t; simpl; lia).
  apply sliceTo_app_l.
Qed.

End TrimFacts.

(** ** The JSON parser never runs out of fuel *)

Module JSONFacts.
Import UTF8 JSON.

Lemma skipSpace_length (s : string) : String.length (skipSpace s) <= String.length s.
Proof.
  induction s as [|c s IH]; simpl; [lia|]. destruct (isSpace c); simpl; lia.
Qed.

Lemma skipSpace_cons (s : string) (c : ascii) (r : string) :
  skipSpace s = String c r -> String.length r < String.length s.
Proof.
  intros H. pose proof (skipSpace_length s) as Hl. rewrite H in Hl. simpl in Hl. lia.
Qed.

Lemma push_Some c o x r : push c o = Some (x, r) -> exists x', o = Some (x', r).
Proof. destruct o as [[x' r']|]; simpl; [|discriminate]. intros [= <- <-]. eauto. Qed.

Lemma pushs_Some p o x r : pushs p o = Some (x, r) -> exists x', o = Some (x', r).
Proof. destruct o as [[x' r']|]; simpl; [|discriminate]. intros [= <- <-]. eauto. Qed.

(** A string literal is at least its closing quote. The recursion of
    [scanString] skips over whole escapes, hence the induction on a bound of
    the length. *)
Lemma scanString_length_aux (n : nat) :
  forall (s : string) (p : nat) (x r : string),
    String.length s <= n -> scanString p s = Some (x, r) ->
    String.length r < String.length s.
Proof.
  induction n as [|n IH]; intros s p x r Hn H.
  - destruct s; [discriminate|simpl in Hn; lia].
  - destruct s as [|c s]; [discriminate|]. simpl in Hn.
    assert (Hrec : forall s' p' x', String.length s' <= String.length s ->
                     scanString p' s' = Some (x', r) ->
                     String.length r < S (String.length s)).
    { intros s' p' x' Hs' H'. apply IH in H'; lia. }
    simpl String.length. simpl in H.
    destruct p as [|p].
    2:{ apply push_Some in H as [x' H]. eapply Hrec; [|exact H]. lia. }
    destruct (Ascii.eqb c dquote). { injection H as <- <-. lia. }
    destruct (Ascii.eqb c "\").
    { destruct s as [|e r1]; [discriminate|].
      destruct (simpleEscape e).
      { apply push_Some in H as [x' H]. eapply Hrec; [|exact H]. simpl; lia. }
      destruct (Ascii.eqb e "u"); [|discriminate].
      destruct r1 as [|h1 [|h2 [|h3 [|h4 r2]]]]; try discriminate.
      destruct (hex4 h1 h2 h3 h4) as [rr|]; [|discriminate].
      assert (Hrep : forall x',
                 pushs (EncodeRune RuneError) (scanString 0 r2) = Some (x', r) ->
                 String.length r
                 < S (String.length (String e (String h1 (String h2 (String h3 (String h4 r2))))))).
      { intros x' H'. apply pushs_Some in H' as [x'' H']. eapply Hrec; [|exact H']. simpl; lia. }
      destruct (isSurrogate rr).
      2:{ apply pushs_Some in H as [x' H]. eapply Hrec; [|exact H]. simpl; lia. }
      destruct r2 as [|b1 [|b2 [|g1 [|g2 [|g3 [|g4 r3]]]]]]; try (eapply Hrep; exact H).
      destruct (Ascii.eqb b1 "\" && Ascii.eqb b2 "u"); [|eapply Hrep; exact H].
      destruct (hex4 g1 g2 g3 g4) as [rr1|]; [|eapply Hrep; exact H].
      destruct (decodeSurrogates rr rr1); [|eapply Hrep; exact H].
      apply pushs_Some in H as [x' H]. eapply Hrec; [|exact H]. simpl; lia. }
    destruct (byte c <? 32)%N; [discriminate|].
    destruct (byte c <? 128)%N.
    { apply push_Some in H as [x' H]. eapply Hrec; [|exact H]. lia. }
    destruct (seqLen c s).
    + apply pushs_Some in H as [x' H]. eapply Hrec; [|exact H]. lia.
    + apply push_Some in H as [x' H]. eapply Hrec; [|exact H]. lia.
Qed.

Lemma scanString_length (s : string) (p : nat) (x r : string) :
  scanString p s = Some (x, r) -> String.length r < String.length s.
Proof. apply (scanString_length_aux (String.length s)). lia. Qed.

Lemma spanDigits_length (s : string) :
  String.length (snd (spanDigits s)) <= String.length s.
Proof.
  induction s as [|c s IH]; simpl; [lia|].
  destruct (isDigit c); simpl; [|lia].
  destruct (spanDigits s) as [ds rest]. simpl in *. lia.
Qed.

Lemma stripPrefix_length (p s r : string) :
  stripPrefix p s = Some r -> String.length r <= String.length s.
Proof.
  revert s. induction p as [|a p IH]; intros s H; simpl in H.
  - injection H as <-. lia.
  - destruct s as [|b s]; [discriminate|]. destruct (Ascii.eqb a b); [|discriminate].
    apply IH in H. simpl. lia.
Qed.

Lemma optByte_length ok s x r :
  optByte ok s = (x, r) -> String.length r <= String.length s.
Proof.
  unfold optByte. destruct s as [|c s]; [intros [= <- <-]; simpl; lia|].
  destruct (ok c); intros [= <- <-]; simpl; lia.
Qed.

Lemma scanDigits1_length s x r :
  scanDigits1 s = Some (x, r) -> String.length r <= String.length s.
Proof.
  unfold scanDigits1. pose proof (spanDigits_length s) as H.
  destruct (spanDigits s) as [[|d ds] rest]; [discriminate|].
  intros [= <- <-]. exact H.
Qed.

Lemma scanInt_length s x r :
  scanInt s = Some (x, r) -> String.length r < String.length s.
Proof.
  unfold scanInt. destruct s as [|c s]; [discriminate|].
  destruct (Ascii.eqb c "0"); [intros [= <- <-]; simpl; lia|].
  destruct (isDigit c); [|discriminate].
  pose proof (spanDigits_length s) as H. destruct (spanDigits s) as [ds rest].
  intros [= <- <-]. simpl in *. lia.
Qed.

Lemma scanFrac_length s x r :
  scanFrac s = Some (x, r) -> String.length r <= String.length s.
Proof.
  unfold scanFrac. destruct s as [|c s]; [intros [= <- <-]; simpl; lia|].
  destruct (Ascii.eqb c "."); [|intros [= <- <-]; simpl; lia].
  destruct (scanDigits1 s) as [[ds rest]|] eqn:E; [|discriminate].
  intros [= <- <-]. apply scanDigits1_length in E. simpl. lia.
Qed.

Lemma scanExp_length s x r :
  scanExp s = Some (x, r) -> String.length r <= String.length s.
Proof.
  unfold scanExp. destruct s as [|c s]; [intros [= <- <-]; simpl; lia|].
  destruct (Ascii.eqb c "e" || Ascii.eqb c "E"); [|intros [= <- <-]; simpl; lia].
  destruct (optByte _ s) as [sg r1] eqn:E1. apply optByte_length in E1.
  destruct (scanDigits1 r1) as [[ds rest]|] eqn:E; [|discriminate].
  intros [= <- <-]. apply scanDigits1_length in E. simpl. lia.
Qed.

Lemma scanNumber_length (s lit r : string) :
  scanNumber s = Some (lit, r) -> String.length r < String.length s.
Proof.
  unfold scanNumber. destruct (optByte _ s) as [sg s1] eqn:E1. apply optByte_length in E1.
  destruct (scanInt s1) as [[int s2]|] eqn:E2; [|discriminate]. apply scanInt_length in E2.
  destruct (scanFrac s2) as [[fr s3]|] eqn:E3; [|discriminate]. apply scanFrac_length in E3.
  destruct (scanExp s3) as [[ex s4]|] eqn:E4; [|discriminate]. apply scanExp_length in E4.
  intros [= <- <-]. lia.
Qed.

Lemma consumes_ofOption {A} (o : option (A * string)) (s : string) :
  (forall a r, o = Some (a, r) -> String.length r < String.length s) ->
  consumes (ofOption o) s.
Proof. destruct o as [[a r]|]; simpl; eauto. Qed.

Lemma consumes_andThen {A B} (x : scan A) (f : A -> string -> scan B) (s s' : string) :
  consumes x s' ->
  (forall a r, String.length r < String.length s' -> consumes (f a r) s) ->
  consumes (andThen x f) s.
Proof. destruct x as [a r| |]; simpl; eauto. Qed.

Lemma consumes_literal (p r s : string) (v : value) :
  String.length r < String.length s ->
  consumes (andThen (ofOption (option_map (pair tt) (stripPrefix p r)))
                    (fun _ rest => Scanned v rest)) s.
Proof.
  intros Hr. destruct (stripPrefix p r) as [rest|] eqn:E; simpl; [|exact I].
  apply stripPrefix_length in E. lia.
Qed.

Lemma valueStep_consumes depth elems members (s : string) :
  (forall r, String.length r < String.length s -> consumes (elems r) r) ->
  (forall r, String.length r < String.length s -> consumes (members r) r) ->
  consumes (valueStep depth elems members s) s.
Proof.
  intros He Hm. unfold valueStep.
  destruct (skipSpace s) as [|c r] eqn:Hs; [exact I|]. apply skipSpace_cons in Hs.
  destruct (Ascii.eqb c dquote).
  { eapply (consumes_andThen _ _ s s).
    - apply consumes_ofOption. intros a r0 H. apply scanString_length in H. lia.
    - intros a r0 H. exact H. }
  destruct (Ascii.eqb c "[").
  { destruct (maxNestingDepth <=? depth)%N; [exact I|].
    destruct (skipSpace r) as [|c' r'] eqn:Hr; [exact I|]. apply skipSpace_cons in Hr.
    destruct (Ascii.eqb c' "]"); [simpl; lia|].
    eapply (consumes_andThen _ _ s r); [now apply He|].
    intros a r0 H. simpl. lia. }
  destruct (Ascii.eqb c "{").
  { destruct (maxNestingDepth <=? depth)%N; [exact I|].
    destruct (skipSpace r) as [|c' r'] eqn:Hr; [exact I|]. apply skipSpace_cons in Hr.
    destruct (Ascii.eqb c' "}"); [simpl; lia|].
    eapply (consumes_andThen _ _ s r); [now apply Hm|].
    intros a r0 H. simpl. lia. }
  destruct (Ascii.eqb c "t"); [now apply consumes_literal|].
  destruct (Ascii.eqb c "f"); [now apply consumes_literal|].
  destruct (Ascii.eqb c "n"); [now apply consumes_literal|].
  eapply (consumes_andThen _ _ s s).
  - apply consumes_ofOption. intros a r0 H. apply scanNumber_length in H.
    simpl in H. lia.
  - intros a r0 H. exact H.
Qed.

Lemma elemsStep_consumes one elems (s : string) :
  consumes (one s) s ->
  (forall r, S (String.length r) < String.length s -> consumes (elems r) r) ->
  consumes (elemsStep one elems s) s.
Proof.
  intros Hv He. unfold elemsStep.
  eapply (consumes_andThen _ _ s s); [exact Hv|].
  intros v r Hr. destruct (skipSpace r) as [|c r'] eqn:Hs; [exact I|].
  apply skipSpace_cons in Hs.
  destruct (Ascii.eqb c ",").
  { eapply (consumes_andThen _ _ s r'); [apply He; lia|].
    intros a r0 H. simpl. lia. }
  destruct (Ascii.eqb c "]"); simpl; [lia|exact I].
Qed.

Lemma membersStep_consumes one members (s : string) :
  (forall r, S (String.length r) < String.length s -> consumes (one r) r) ->
  (forall r, S (String.length r) < String.length s -> consumes (members r) r) ->
  consumes (membersStep one members s) s.
Proof.
  intros Hv Hm. unfold membersStep.
  destruct (skipSpace s) as [|q r] eqn:Hs; [exact I|]. apply skipSpace_cons in Hs.
  destruct (negb (Ascii.eqb q dquote)); [exact I|].
  eapply (consumes_andThen _ _ s r).
  { apply consumes_ofOption. intros a r0 H. now apply scanString_length in H. }
  intros key r1 Hr1. destruct (skipSpace r1) as [|c r2] eqn:Hs1; [exact I|].
  apply skipSpace_cons in Hs1.
  destruct (negb (Ascii.eqb c ":")); [exact I|].
  eapply (consumes_andThen _ _ s r2); [apply Hv; lia|].
  intros v r3 Hr3. destruct (skipSpace r3) as [|d r4] eqn:Hs3; [exact I|].
  apply skipSpace_cons in Hs3.
  destruct (Ascii.eqb d ",").
  { eapply (consumes_andThen _ _ s r4); [apply Hm; lia|].
    intros a r0 H. simpl. lia. }
  destruct (Ascii.eqb d "}"); simpl; [lia|exact I].
Qed.

(** Two units of fuel per byte are enough: a value spends one to enter an
    array or an object, whose first byte it has consumed, and the elements
    spend one per value. *)
Lemma parse_fuel (n : nat) :
  (forall d s, 2 * String.length s < n -> consumes (parseValue n d s) s) /\
  (forall d s, 2 * String.length s + 1 < n -> consumes (parseElems n d s) s) /\
  (forall d s, 2 * String.length s + 1 < n -> consumes (parseMembers n d s) s).
Proof.
  induction n as [|n (IHv & IHe & IHm)]; [repeat split; intros d s H; lia|].
  split; [|split]; intros d s Hn.
  - change (parseValue (S n) d s)
      with (valueStep d (parseElems n (N.succ d)) (parseMembers n (N.succ d)) s).
    apply valueStep_consumes; intros r Hr; [apply IHe|apply IHm]; lia.
  - change (parseElems (S n) d s) with (elemsStep (parseValue n d) (parseElems n d) s).
    apply elemsStep_consumes; [apply IHv; lia|]. intros r Hr. apply IHe. lia.
  - change (parseMembers (S n) d s)
      with (membersStep (parseValue n d) (parseMembers n d) s).
    apply membersStep_consumes; intros r Hr; [apply IHv|apply IHm]; lia.
Qed.

(** The fuel [parseFirst] gives is enough on every input: the outcome is a
    value or a rejection of the text. *)
Lemma parseFirst_fuel (data : string) : parseFirst data <> OutOfFuel.
Proof.
  unfold parseFirst, fuelFor. intros H.
  pose proof (proj1 (parse_fuel (2 * String.length data + 1)) 0%N data) as Hc.
  rewrite H in Hc. apply Hc. lia.
Qed.

(** The nesting limit: 10000 levels are read, the bracket that opens level
    10001 is rejected, by [json.Unmarshal] and by the decoder alike. *)
Example nesting_limit :
  kindOf <$> parseWhole (nestedArrays 10000) = Some "array" /\
  parseWhole (nestedArrays 10001) = None /\
  Unmarshal (nestedArrays 10001) = ([], Some SyntaxError) /\
  snd (Decode ("{" +:+ quoted "price" +:+ ":" +:+ nestedArrays 9999 +:+ "}"))
    = Some (UnmarshalTypeError "array" "string" "price") /\
  snd (Decode ("{" +:+ quoted "price" +:+ ":" +:+ nestedArrays 10000 +:+ "}"))
    = Some SyntaxError.
Proof. repeat split; vm_compute; reflexivity. Qed.

End JSONFacts.

(** ** Price formatting *)

Module FormatFacts.
Import GoStrings Format TrimFacts Widget.

Example trim_fraction : trimPrice "123.45000" = "123.45".
Proof. reflexivity. Qed.

Example trim_whole_fraction : trimPrice "100.00000" = "100".
Proof. reflexivity. Qed.

Example trim_small : trimPrice "0.00010000" = "0.0001".
Proof. reflexivity. Qed.

(** Without a decimal point the zeroes of the integer part are the trailing
    zeroes, and [trimPrice] removes them. *)
Lemma trimPrice_zeros (k : nat) : trimPrice (Repeat "0" k) = EmptyString.
Proof.
  unfold trimPrice. change (TrimRight (Repeat "0" k) "0") with (trimRightByte (Repeat "0" k) "0").
  rewrite <- (app_empty_l (Repeat "0" k)).
  rewrite trimRightByte_app_repeat by discriminate. reflexivity.
Qed.

(** C1: a raw price without a decimal point should come out unchanged, but
    the trim runs over the whole string: the raw price [100] is shown as [1]
    (and [0] as the empty string). *)
Theorem integer_price_truncated :
  ContainsByte "100" "." = false /\
  trimPrice "100" = "1" /\
  trimPrice "0" = "" /\
  priceLabels
    (updateLabel Config.sampleError (constNet 200 (tickerBody "BTC" "100"))
       "BTC" (NewBinanceWidget ["BTC"])) !! "BTC"
  = Some "BTC/USDT: 1".
Proof. repeat split; vm_compute; reflexivity. Qed.

End FormatFacts.

(** ** The configuration file *)

Module ConfigFacts.
Import JSON Config.

(** The sample texts, byte by byte, and what [json.Marshal] writes for the
    default symbols. *)
Example defaultConfigText_bytes :
  map nat_of_ascii (list_ascii_of_string defaultConfigText)
  = [91; 34; 66; 84; 67; 34; 44; 34; 69; 84; 72; 34; 44; 34; 83; 79; 76; 34; 93].
Proof. reflexivity. Qed.

Example nullConfigText_bytes :
  map nat_of_ascii (list_ascii_of_string nullConfigText)
  = [91; 34; 66; 84; 67; 34; 44; 32; 110; 117; 108; 108; 93].
Proof. reflexivity. Qed.

Example Marshal_defaultSymbols : Marshal defaultSymbols = defaultConfigText.
Proof. reflexivity. Qed.

Lemma derefAll_Some (l acc : list string) :
  derefAll (map Some l) acc = Some (acc ++ l).
Proof.
  revert acc. induction l as [|x l IH]; intros acc; simpl.
  - now rewrite app_nil_r.
  - rewrite IH. now rewrite <- app_assoc.
Qed.

Lemma decodeElems_strings (l : list string) :
  decodeElems (map Str l) = (map Some l, None).
Proof. induction l as [|x l IH]; simpl; [reflexivity|]. now rewrite IH. Qed.

(** A text that is a JSON array of strings stores exactly those strings. *)
Lemma Unmarshal_strings (content : string) (l : list string) :
  parseWhole content = Some (Array (map Str l)) ->
  Unmarshal content = (map Some l, None).
Proof. intros H. unfold Unmarshal. rewrite H. apply decodeElems_strings. Qed.

Lemma Open_missing (w : World) (name : string) :
  files w !! name = None -> Open w name = inl (PathError "open" name ENOENT).
Proof. intros H. unfold Open. now rewrite H. Qed.

Lemma Open_fails (w : World) (name : string) (errno : Errno) :
  files w !! name = Some (OpenFails errno) ->
  Open w name = inl (PathError "open" name errno).
Proof. intros H. unfold Open. now rewrite H. Qed.

Section Facts.
Variable Error : error -> string.

(** What the load does when there is no config file. *)
Lemma load_missing (w : World) :
  files w !! configPathOf (HOME w) = None ->
  loadSymbolsFromConfig Error w =
    (Return defaultSymbols None,
     snd (createDefaultConfig (configPathOf (HOME w))
            (print ("Config file not found, creating a new one with default symbols: "
                    +:+ fmtStrings defaultSymbols +:+ newline) w))).
Proof.
  intros H. unfold loadSymbolsFromConfig. rewrite (Open_missing _ _ H). simpl.
  now destruct (createDefaultConfig _ _).
Qed.

(** What the load does when the file is there and cannot be opened. *)
Lemma load_open_fails (w : World) (errno : Errno) :
  files w !! configPathOf (HOME w) = Some (OpenFails errno) ->
  errno <> ENOENT ->
  loadSymbolsFromConfig Error w =
    (Return defaultSymbols None,
     print ("Error opening config file: "
            +:+ Error (PathError "open" (configPathOf (HOME w)) errno) +:+ newline) w).
Proof.
  intros H Hne. unfold loadSymbolsFromConfig. rewrite (Open_fails _ _ _ H).
  destruct errno; try reflexivity. now contradiction Hne.
Qed.

(** What the load does on a file it can read. *)
Lemma load_regular (w : World) (content : string) :
  files w !! configPathOf (HOME w) = Some (RegularFile content) ->
  loadSymbolsFromConfig Error w =
    (match derefAll (fst (Unmarshal content)) [] with
     | Some strings => Return strings None
     | None => Panic
     end, w).
Proof.
  intros H. unfold loadSymbolsFromConfig, Open. rewrite H. simpl.
  now destruct (derefAll _ _).
Qed.

(** What the load does on a file that is not one JSON value: nothing is
    stored, the loop runs over the empty slice, and no error comes back. *)
Lemma load_ill_formed (w : World) (content : string) :
  files w !! configPathOf (HOME w) = Some (RegularFile content) ->
  parseWhole content = None ->
  loadSymbolsFromConfig Error w = (Return [] None, w).
Proof.
  intros H Hp. rewrite (load_regular w content H).
  unfold Unmarshal. now rewrite Hp.
Qed.

(** What the load does on a path that opens and cannot be read: the error
    of [io.ReadAll] comes back wrapped, with no list. *)
Lemma load_read_fails (w : World) (errno : Errno) :
  files w !! configPathOf (HOME w) = Some (ReadFails errno) ->
  loadSymbolsFromConfig Error w =
    (Return [] (Some (wrapError EmptyString
                        (wrapError "can't marshal default symbols: "
                                   (PathError "read" (configPathOf (HOME w)) errno)))), w).
Proof. intros H. unfold loadSymbolsFromConfig, Open. now rewrite H. Qed.

End Facts.

(** C2: a config file that is not JSON should give a parse error to the
    caller. The load returns an empty list and no error: the error of
    [json.Unmarshal] is dropped in [parseSymbolsFromConfig]. *)
Theorem load_malformed_no_error :
  parseWhole "not json" = None /\
  Unmarshal "not json" = ([], Some SyntaxError) /\
  parseSymbolsFromConfig (mkFile (configPathOf "/home/u") (RegularFile "not json"))
    = ([], None) /\
  loadSymbolsFromConfig sampleError (worldWithConfig "not json")
    = (Return [] None, worldWithConfig "not json").
Proof. repeat split; vm_compute; reflexivity. Qed.

(** C3, as stated, fails: for a malformed config file the list that comes
    back is empty, not the default list; and for a config path that opens
    and cannot be read the load returns an error and no list. *)
Lemma load_malformed_empty :
  parseWhole truncatedConfigText = None /\
  ~ (exists l, fst (loadSymbolsFromConfig sampleError
                      (worldWithConfig truncatedConfigText)) = Return l None /\
               l <> []) /\
  ~ (exists l err, fst (loadSymbolsFromConfig sampleError dirWorld) = Return l err /\
                   l <> []).
Proof.
  split; [vm_compute; reflexivity|]. split.
  - intros (l & Hl & Hne). vm_compute in Hl. injection Hl as <-. now apply Hne.
  - intros (l & err & Hl & Hne). vm_compute in Hl. injection Hl as <- _. now apply Hne.
Qed.

(** C3, amended: when the config file is missing or cannot be opened, the
    load returns the default list, which is not empty, and no error. *)
Theorem load_defaults_nonempty (Error : error -> string) (w : World) :
  files w !! configPathOf (HOME w) = None \/
  (exists errno, files w !! configPathOf (HOME w) = Some (OpenFails errno)) ->
  fst (loadSymbolsFromConfig Error w) = Return ["BTC"; "ETH"; "SOL"] None /\
  ["BTC"; "ETH"; "SOL"] <> @nil string.
Proof.
  intros H. split; [|discriminate].
  destruct H as [H|[errno H]].
  - now rewrite load_missing.
  - unfold loadSymbolsFromConfig. rewrite (Open_fails _ _ _ H).
    destruct (IsNotExist _); [|reflexivity].
    now destruct (createDefaultConfig _ _).
Qed.

Lemma load_defaults_nonempty_witness :
  fst (loadSymbolsFromConfig sampleError freshWorld) = Return ["BTC"; "ETH"; "SOL"] None /\
  ["BTC"; "ETH"; "SOL"] <> @nil string.
Proof. apply (load_defaults_nonempty sampleError freshWorld). left. reflexivity. Defined.

(** C4: with no config file, the load writes [["BTC","ETH","SOL"]] to the
    config path and returns the default list; when the write fails nothing
    is written and the default list is returned all the same. *)
Theorem load_bootstrap (Error : error -> string) (w : World) :
  files w !! configPathOf (HOME w) = None ->
  fst (loadSymbolsFromConfig Error w) = Return ["BTC"; "ETH"; "SOL"] None /\
  (writeErr w = None ->
   files (snd (loadSymbolsFromConfig Error w)) =
     <[configPathOf (HOME w) := RegularFile defaultConfigText]> (files w)) /\
  (writeErr w <> None ->
   files (snd (loadSymbolsFromConfig Error w)) = files w).
Proof.
  intros H. rewrite load_missing by exact H. split; [reflexivity|].
  unfold createDefaultConfig, WriteFile. simpl.
  destruct (writeErr w) as [errno|]; simpl.
  - split; [discriminate|reflexivity].
  - split; [reflexivity|]. intros Hne. now contradiction Hne.
Qed.

Lemma load_bootstrap_witness :
  fst (loadSymbolsFromConfig sampleError freshWorld) = Return ["BTC"; "ETH"; "SOL"] None /\
  (writeErr freshWorld = None ->
   files (snd (loadSymbolsFromConfig sampleError freshWorld)) =
     <[configPathOf (HOME freshWorld) := RegularFile defaultConfigText]>
       (files freshWorld)) /\
  (writeErr freshWorld <> None ->
   files (snd (loadSymbolsFromConfig sampleError freshWorld)) = files freshWorld).
Proof. apply (load_bootstrap sampleError freshWorld). reflexivity. Defined.

(** The file the program wrote reads back as the list the program holds. *)
Lemma load_after_bootstrap (Error : error -> string) (w : World) :
  files w !! configPathOf (HOME w) = None ->
  writeErr w = None ->
  fst (loadSymbolsFromConfig Error (snd (loadSymbolsFromConfig Error w)))
    = Return defaultSymbols None.
Proof.
  intros H Hw. rewrite (load_missing Error w H).
  unfold createDefaultConfig, WriteFile. simpl. rewrite Hw. simpl.
  erewrite load_regular; [|simpl; apply lookup_insert_eq].
  reflexivity.
Qed.

(** C6: a config file holding a JSON array of strings gives back exactly
    those strings, in the order of the file, duplicates included, with no
    error and without touching the file system. *)
Theorem load_string_array (Error : error -> string) (w : World)
    (content : string) (l : list string) :
  files w !! configPathOf (HOME w) = Some (RegularFile content) ->
  parseWhole content = Some (Array (map Str l)) ->
  loadSymbolsFromConfig Error w = (Return l None, w).
Proof.
  intros Hf Hp. rewrite (load_regular Error w content Hf).
  rewrite (Unmarshal_strings content l Hp). simpl.
  now rewrite derefAll_Some.
Qed.

Lemma load_string_array_witness :
  loadSymbolsFromConfig sampleError
    (worldWithConfig duplicateConfigText)
  = (Return ["TRX"; "PEPE"; "SOL"; "BNB"; "SOL"] None,
     worldWithConfig duplicateConfigText).
Proof.
  apply (load_string_array sampleError
           (worldWithConfig duplicateConfigText)
           duplicateConfigText
           ["TRX"; "PEPE"; "SOL"; "BNB"; "SOL"]).
  - vm_compute. reflexivity.
  - vm_compute. reflexivity.
Defined.

Example load_readme_example :
  fst (loadSymbolsFromConfig sampleError
         (worldWithConfig readmeConfigText))
  = Return ["TRX"; "PEPE"; "SOL"; "BNB"] None.
Proof. vm_compute. reflexivity. Qed.

(** C8: when the config file is there but opening it fails for another
    reason than absence, the load prints the error and returns the default
    list without an error; no file is touched. *)
Theorem load_unopenable (Error : error -> string) (w : World) (errno : Errno) :
  files w !! configPathOf (HOME w) = Some (OpenFails errno) ->
  errno <> ENOENT ->
  fst (loadSymbolsFromConfig Error w) = Return ["BTC"; "ETH"; "SOL"] None /\
  files (snd (loadSymbolsFromConfig Error w)) = files w /\
  stdout (snd (loadSymbolsFromConfig Error w)) =
    stdout w ++ ["Error opening config file: "
                 +:+ Error (PathError "open" (configPathOf (HOME w)) errno)
                 +:+ newline].
Proof.
  intros H Hne. rewrite (load_open_fails Error w errno H Hne). repeat split.
Qed.

Lemma load_unopenable_witness :
  fst (loadSymbolsFromConfig sampleError lockedWorld) = Return ["BTC"; "ETH"; "SOL"] None /\
  files (snd (loadSymbolsFromConfig sampleError lockedWorld)) = files lockedWorld /\
  stdout (snd (loadSymbolsFromConfig sampleError lockedWorld)) =
    stdout lockedWorld ++
      ["Error opening config file: "
       +:+ sampleError (PathError "open" (configPathOf (HOME lockedWorld)) EACCES)
       +:+ newline].
Proof.
  apply (load_unopenable sampleError lockedWorld EACCES).
  - vm_compute. reflexivity.
  - discriminate.
Defined.

(** C10: there is a well-formed config file, a JSON array with a [null]
    element, on which the load neither returns a list nor an error: it
    dereferences the nil pointer stored for [null]. *)
Theorem load_null_element_panics (Error : error -> string) (w : World) :
  files w !! configPathOf (HOME w) = Some (RegularFile nullConfigText) ->
  parseWhole nullConfigText = Some (Array [Str "BTC"; Null]) /\
  parseSymbolsFromConfig (mkFile (configPathOf (HOME w)) (RegularFile nullConfigText))
    = ([Some "BTC"; None], None) /\
  fst (loadSymbolsFromConfig Error w) = Panic.
Proof.
  intros H. split; [vm_compute; reflexivity|]. split; [vm_compute; reflexivity|].
  rewrite (load_regular Error w _ H). vm_compute. reflexivity.
Qed.

Lemma load_null_element_panics_witness :
  parseWhole nullConfigText = Some (Array [Str "BTC"; Null]) /\
  parseSymbolsFromConfig
    (mkFile (configPathOf (HOME (worldWithConfig nullConfigText))) (RegularFile nullConfigText))
    = ([Some "BTC"; None], None) /\
  fst (loadSymbolsFromConfig sampleError (worldWithConfig nullConfigText)) = Panic.
Proof.
  apply (load_null_element_panics sampleError (worldWithConfig nullConfigText)).
  vm_compute. reflexivity.
Defined.

End ConfigFacts.

(** ** The refresh cycle *)

Module WidgetFacts.
Import JSON GoStrings Format Widget TrimFacts.

Lemma SetText_apiUrl symbol text w : apiUrl (SetText symbol text w) = apiUrl w.
Proof. unfold SetText. now destruct (priceLabels w !! symbol). Qed.

Lemma SetText_symbols symbol text w : symbols (SetText symbol text w) = symbols w.
Proof. unfold SetText. now destruct (priceLabels w !! symbol). Qed.

Lemma SetText_lookup_eq symbol text w :
  is_Some (priceLabels w !! symbol) ->
  priceLabels (SetText symbol text w) !! symbol = Some text.
Proof.
  intros [old Hold]. unfold SetText. rewrite Hold. simpl. apply lookup_insert_eq.
Qed.

Lemma SetText_lookup_ne symbol text w other :
  other <> symbol ->
  priceLabels (SetText symbol text w) !! other = priceLabels w !! other.
Proof.
  intros Hne. unfold SetText. destruct (priceLabels w !! symbol); [|reflexivity].
  simpl. now apply lookup_insert_ne.
Qed.

Lemma SetText_is_Some symbol text w other :
  is_Some (priceLabels (SetText symbol text w) !! other) <->
  is_Some (priceLabels w !! other).
Proof.
  destruct (decide (other = symbol)) as [->|Hne].
  - unfold SetText. destruct (priceLabels w !! symbol) eqn:E.
    + simpl. rewrite lookup_insert_eq. split; eauto.
    + now rewrite E.
  - now rewrite SetText_lookup_ne.
Qed.

(** Every symbol of the list has a label once [initUI] has made them. *)
Lemma initLabels_is_Some (w : BinanceWidget) (symbol : string) :
  symbol ∈ symbols w -> is_Some (priceLabels (initLabels w) !! symbol).
Proof.
  unfold initLabels. simpl. generalize (priceLabels w). induction (symbols w) as [|x l IH].
  - intros m H. now apply elem_of_nil in H.
  - intros m H. simpl. apply elem_of_cons in H as [->|H].
    + clear IH. assert (is_Some (<[x := "Loading..."]> m !! x)) as Hx
        by (rewrite lookup_insert_eq; eauto).
      revert Hx. generalize (<[x := "Loading..."]> m). induction l as [|y l IHl].
      * easy.
      * intros m' Hm'. simpl. apply IHl.
        destruct (decide (y = x)) as [->|Hne].
        -- rewrite lookup_insert_eq; eauto.
        -- now rewrite lookup_insert_ne.
    + now apply IH.
Qed.

Section Facts.
Variable Error : error -> string.
Variable httpGet : string -> GetResult.

Abbreviation updateLabel := (updateLabel Error httpGet).
Abbreviation resultText := (resultText Error httpGet).
Abbreviation step := (step Error httpGet).
Abbreviation reachable := (reachable Error httpGet).
Abbreviation shown := (shown Error httpGet).
Abbreviation inv := (inv Error httpGet).

(** [updateLabel] sets one label, to a text that depends on the symbol's own
    fetch only. *)
Lemma updateLabel_SetText (symbol : string) (w : BinanceWidget) :
  updateLabel symbol w = SetText symbol (resultText (apiUrl w) symbol) w.
Proof.
  unfold Widget.updateLabel, Widget.resultText.
  destruct (httpGet _) as [resp|err]; [|reflexivity].
  destruct (Decode (Body resp)) as [data [err|]]; reflexivity.
Qed.

Lemma updateLabel_other (symbol other : string) (w : BinanceWidget) :
  other <> symbol ->
  priceLabels (updateLabel symbol w) !! other = priceLabels w !! other.
Proof. intros H. rewrite updateLabel_SetText. now apply SetText_lookup_ne. Qed.

Lemma updateLabel_own (symbol : string) (w : BinanceWidget) :
  is_Some (priceLabels w !! symbol) ->
  priceLabels (updateLabel symbol w) !! symbol = Some (resultText (apiUrl w) symbol).
Proof. intros H. rewrite updateLabel_SetText. now apply SetText_lookup_eq. Qed.

(** *** The invariant holds in every state of a refresh *)

Lemma inv_start (w0 : BinanceWidget) : inv w0 (start w0).
Proof.
  split; simpl; try reflexivity.
  intros s [H|H] _; [now apply elem_of_nil in H|now apply elem_of_nil in H].
Qed.

#[local] Arguments Widget.updateLabel : simpl never.

Lemma inv_step (w0 : BinanceWidget) (st st' : cycle) :
  inv w0 st -> step st st' -> inv w0 st'.
Proof.
  intros [Hc Ha Hs Hl Hu Hsh] Hstep. unfold Widget.shown in *.
  destruct Hstep; simpl in *.
  - (* add *)
    split; unfold Widget.shown; simpl; try assumption. lia.
  - (* go *)
    split; unfold Widget.shown; simpl; try assumption.
    + rewrite length_app. simpl. lia.
    + rewrite Hu, map_app. simpl.
      rewrite <- !app_assoc. simpl.
      apply Permutation_app_head, Permutation_app_head.
      reflexivity.
    + intros s [H|H] Hsome; apply Hsh; auto.
      apply elem_of_app in H as [H|H]; [now right|].
      apply list_elem_of_singleton in H. discriminate.
  - (* update *)
    split; unfold Widget.shown; simpl.
    + rewrite Hc, !length_app. reflexivity.
    + now rewrite updateLabel_SetText, SetText_apiUrl.
    + now rewrite updateLabel_SetText, SetText_symbols.
    + intros s. rewrite updateLabel_SetText, SetText_is_Some. apply Hl.
    + idtac.
      destruct p; [| |destruct Hu as [Hu _]; now destruct us1];
        rewrite map_app in *; exact Hu.
    + intros s Hin Hsome. destruct (decide (s = symbol)) as [->|Hne].
      * rewrite updateLabel_own; [now rewrite Ha|]. now apply Hl.
      * rewrite updateLabel_other by exact Hne. apply Hsh; [|exact Hsome].
        destruct Hin as [Hin|Hin]; [now left|right].
        rewrite !elem_of_app, !elem_of_cons in *.
        destruct Hin as [Hin|[Hin|Hin]]; auto. congruence.
  - (* done *)
    split; unfold Widget.shown; simpl; try assumption.
    + rewrite Hc, !length_app. simpl. lia.
    + idtac.
      destruct p; [| |destruct Hu as [Hu _]; now destruct us1];
        rewrite Hu, !map_app; simpl; rewrite <- !app_assoc; simpl;
        rewrite !(app_assoc es); symmetry; apply Permutation_middle.
    + intros s Hin Hsome. apply Hsh; [|exact Hsome].
      rewrite !elem_of_app, !elem_of_cons in *.
      destruct Hin as [[->|Hin]|[Hin|Hin]]; auto.
  - (* return *)
    split; unfold Widget.shown; simpl; try assumption.
    assert (us = []) as -> by (destruct us; [reflexivity|simpl in Hc; lia]).
    simpl in Hu. rewrite !app_nil_r in Hu. now split.
Qed.

Lemma inv_reachable (w0 : BinanceWidget) (st : cycle) :
  reachable w0 st -> inv w0 st.
Proof.
  unfold Widget.reachable. revert st. apply rtc_ind_r; [apply inv_start|].
  intros y z _ Hstep IH. eapply inv_step; eassumption.
Qed.

(** *** The cycle always comes to its end *)





(** *** A refresh of a new widget *)

(** A body that does not start with a JSON value gives an error. *)
Lemma Decode_rejects (body : string) :
  (forall v rest, parseFirst body <> Scanned v rest) ->
  exists err, snd (Decode body) = Some err.
Proof.
  intros H. unfold Decode. destruct (parseFirst body) as [v rest| |] eqn:E.
  - now contradiction (H v rest).
  - destruct (skipSpace body); simpl; eauto.
  - destruct (skipSpace body); simpl; eauto.
Qed.

(** Storing the members of an object gives an error exactly when one of
    them is neither a string nor [null]. *)
Lemma decodeMembers_error_iff (ms : list (string * value)) :
  forall m, snd (decodeMembers ms m) = None <->
            forallb (fun kv => stringOrNull kv.2) ms = true.
Proof.
  induction ms as [|[k v] ms IH]; intros m; simpl; [easy|].
  destruct v; simpl;
    match goal with
    | |- context [decodeMembers ms ?m'] =>
        specialize (IH m'); destruct (decodeMembers ms m') as [m1 es]
    end; simpl in *; try exact IH; split; discriminate.
Qed.

Lemma error_iff_false (o : option error) (b : bool) :
  (o = None <-> b = true) -> ((exists err, o = Some err) <-> b = false).
Proof.
  intros [H1 H2]. destruct o as [err|], b; split.
  - intros _. specialize (H2 eq_refl). discriminate.
  - discriminate.
  - reflexivity.
  - intros _. exists err. reflexivity.
  - intros [err H]. discriminate.
  - discriminate.
  - reflexivity.
  - intros _. specialize (H1 eq_refl). discriminate.
Qed.

(** [Decode] has no error exactly on the bodies of [readsAsStringMap]. *)
Lemma Decode_error_iff (body : string) :
  snd (Decode body) = None <-> readsAsStringMap body = true.
Proof.
  unfold Decode, readsAsStringMap.
  destruct (parseFirst body) as [v rest| |].
  - destruct v; simpl; try (split; discriminate); [easy|].
    apply decodeMembers_error_iff.
  - destruct (skipSpace body); simpl; split; discriminate.
  - destruct (skipSpace body); simpl; split; discriminate.
Qed.

(** When the refresh of a new widget has returned, every symbol of the list
    shows the text of its own fetch. *)
Lemma finished_cycle_labels (l : list string) (st : cycle) (s : string) :
  reachable (NewBinanceWidget l) st -> main st = Returned -> s ∈ l ->
  priceLabels (widget st) !! s
    = Some (resultText (apiUrl (NewBinanceWidget l)) s).
Proof.
  intros Hreach Hret Hin. pose proof (inv_reachable _ _ Hreach) as Hinv.
  pose proof (inv_units _ _ _ _ Hinv) as Hu. rewrite Hret in Hu.
  destruct Hu as [_ Hperm].
  apply (inv_shown _ _ _ _ Hinv).
  - left. rewrite <- Hperm. exact Hin.
  - apply initLabels_is_Some. exact Hin.
Qed.

End Facts.

Example refresh_isolated :
  priceLabels (updatePriceSeq Config.sampleError sampleNet (NewBinanceWidget ["BTC"; "ETH"]))
  = {[ "BTC" := "BTC/USDT: 50000.12";
       "ETH" := "Error: Get "
                  +:+ quoted "https://api.binance.com/api/v3/ticker/price?symbol=ETHUSDT"
                  +:+ ": context deadline exceeded" ]}.
Proof. vm_compute. reflexivity. Qed.

(** C5, as stated, fails: a response without a [price] field, and a
    response with a status outside 2xx whose body decodes, are shown as an
    empty price, not as an error. *)
Lemma missing_price_not_error :
  priceLabels (updateLabel Config.sampleError (constNet 200 "{}") "BTC"
                 (NewBinanceWidget ["BTC"])) !! "BTC"
    = Some "BTC/USDT: " /\
  priceLabels (updateLabel Config.sampleError (constNet 404 notFoundBody) "BTC"
                 (NewBinanceWidget ["BTC"])) !! "BTC"
    = Some "BTC/USDT: " /\
  String.prefix "Error: " "BTC/USDT: " = false.
Proof. repeat split; vm_compute; reflexivity. Qed.

(** C5, amended: when [http.Get] fails, or [Decode] gives an error, the
    label of the symbol reads [Error: ] followed by the error's text.
    [Decode] gives an error exactly when the first JSON value of the body
    cannot be read (a text that is not JSON or is cut short, an empty body,
    nesting beyond the decoder's limit), or is neither an object nor [null],
    or is an object with a member that is neither a string nor [null]. For
    every other body (any status, with or without a price, whatever follows
    the first value) the label reads the symbol, [/USDT: ] and the trimmed
    price, the empty string when there is none. [updateLabel] leaves every
    other symbol's label as it is; and in every finished cycle each labelled
    symbol shows the text of its own fetch. *)
Theorem fetch_failure_contained (Error : error -> string) (httpGet : string -> GetResult)
    (w : BinanceWidget) (symbol : string) :
  is_Some (priceLabels w !! symbol) ->
  (forall err, httpGet (apiUrl w +:+ symbol +:+ "USDT") = GetErr err ->
     priceLabels (updateLabel Error httpGet symbol w) !! symbol
       = Some ("Error: " +:+ Error err)) /\
  (forall resp err, httpGet (apiUrl w +:+ symbol +:+ "USDT") = GetOk resp ->
     snd (Decode (Body resp)) = Some err ->
     priceLabels (updateLabel Error httpGet symbol w) !! symbol
       = Some ("Error: " +:+ Error err)) /\
  (forall resp, httpGet (apiUrl w +:+ symbol +:+ "USDT") = GetOk resp ->
     ((exists err, snd (Decode (Body resp)) = Some err) <->
      readsAsStringMap (Body resp) = false) /\
     (readsAsStringMap (Body resp) = true ->
      priceLabels (updateLabel Error httpGet symbol w) !! symbol
        = Some (successText symbol
                  (default EmptyString (fst (Decode (Body resp)) !! "price"))))) /\
  (forall other, other <> symbol ->
     priceLabels (updateLabel Error httpGet symbol w) !! other = priceLabels w !! other) /\
  (forall st, reachable Error httpGet w st -> main st = Returned ->
     forall s, is_Some (priceLabels w !! s) -> s ∈ symbols w ->
       priceLabels (widget st) !! s = Some (resultText Error httpGet (apiUrl w) s)).
Proof.
  intros Hlabel. split; [|split; [|split; [|split]]].
  - intros err Hget. rewrite updateLabel_own by exact Hlabel.
    unfold resultText. now rewrite Hget.
  - intros resp err Hget Hdec. rewrite updateLabel_own by exact Hlabel.
    unfold resultText. rewrite Hget. destruct (Decode (Body resp)) as [data e].
    simpl in Hdec. now subst e.
  - intros resp Hget. pose proof (Decode_error_iff (Body resp)) as Hiff. split.
    + now apply error_iff_false.
    + intros Hreads. apply Hiff in Hreads.
      rewrite updateLabel_own by exact Hlabel.
      unfold resultText. rewrite Hget. destruct (Decode (Body resp)) as [data e].
      simpl in Hreads. now subst e.
  - intros other Hne. now apply updateLabel_other.
  - intros st Hreach Hret s Hs Hin.
    pose proof (inv_reachable _ _ _ _ Hreach) as Hinv.
    pose proof (inv_units _ _ _ _ Hinv) as Hu. rewrite Hret in Hu.
    destruct Hu as [_ Hperm].
    apply (inv_shown _ _ _ _ Hinv); [|exact Hs].
    left. now rewrite <- Hperm.
Qed.

Lemma fetch_failure_contained_witness :
  priceLabels (updateLabel Config.sampleError faultyNet "ETH" faultyWidget) !! "ETH"
    = Some ("Error: " +:+ Config.sampleError
              (UrlError "Get" "https://api.binance.com/api/v3/ticker/price?symbol=ETHUSDT"
                        "context deadline exceeded")) /\
  priceLabels (updateLabel Config.sampleError faultyNet "SOL" faultyWidget) !! "SOL"
    = Some ("Error: " +:+ Config.sampleError SyntaxError) /\
  priceLabels (updateLabel Config.sampleError faultyNet "DOGE" faultyWidget) !! "DOGE"
    = Some ("Error: " +:+ Config.sampleError (UnmarshalTypeError "number" "string" "code")) /\
  priceLabels (updateLabel Config.sampleError faultyNet "XRP" faultyWidget) !! "XRP"
    = Some "XRP/USDT: 1.5" /\
  priceLabels (updateLabel Config.sampleError faultyNet "ADA" faultyWidget) !! "ADA"
    = Some "ADA/USDT: " /\
  priceLabels (updateLabel Config.sampleError faultyNet "SOL" faultyWidget) !! "BTC"
    = priceLabels faultyWidget !! "BTC".
Proof.
  assert (Hlabel : forall s, s ∈ symbols faultyWidget ->
                             is_Some (priceLabels faultyWidget !! s))
    by (intros s Hs; now apply initLabels_is_Some).
  destruct (fetch_failure_contained Config.sampleError faultyNet faultyWidget "ETH")
    as (Heth & _); [apply Hlabel; vm_compute; do 1 right; left|].
  destruct (fetch_failure_contained Config.sampleError faultyNet faultyWidget "SOL")
    as (_ & Hsol & _ & Hother & _); [apply Hlabel; vm_compute; do 2 right; left|].
  destruct (fetch_failure_contained Config.sampleError faultyNet faultyWidget "DOGE")
    as (_ & Hdoge & _); [apply Hlabel; vm_compute; do 3 right; left|].
  destruct (fetch_failure_contained Config.sampleError faultyNet faultyWidget "XRP")
    as (_ & _ & Hxrp & _); [apply Hlabel; vm_compute; do 4 right; left|].
  destruct (fetch_failure_contained Config.sampleError faultyNet faultyWidget "ADA")
    as (_ & _ & Hada & _); [apply Hlabel; vm_compute; do 5 right; left|].
  split; [|split; [|split; [|split; [|split]]]].
  - apply Heth. vm_compute. reflexivity.
  - apply (Hsol (mkResponse 502 gatewayBody)); vm_compute; reflexivity.
  - apply (Hdoge (mkResponse 400 invalidSymbolBody)); vm_compute; reflexivity.
  - destruct (Hxrp (mkResponse 200 (tickerBody "XRP" "1.50" +:+ " <html>")))
      as [_ Hshown]; [vm_compute; reflexivity|].
    rewrite Hshown by (vm_compute; reflexivity). vm_compute. reflexivity.
  - destruct (Hada (mkResponse 200 "null")) as [_ Hshown]; [vm_compute; reflexivity|].
    rewrite Hshown by (vm_compute; reflexivity). vm_compute. reflexivity.
  - apply Hother. discriminate.
Defined.

(** C7: for a raw price with a decimal point, the label shows the symbol,
    [/USDT: ] and the price without its trailing zeroes and, when a point is
    then last, without that point; what stands before the first point is
    shown as it is. *)
Theorem decimal_price_shown (Error : error -> string) (httpGet : string -> GetResult)
    (w : BinanceWidget) (symbol : string) (resp : Response)
    (data : gmap string string) (price : string) :
  is_Some (priceLabels w !! symbol) ->
  httpGet (apiUrl w +:+ symbol +:+ "USDT") = GetOk resp ->
  Decode (Body resp) = (data, None) ->
  data !! "price" = Some price ->
  ContainsByte price "." = true ->
  (exists t k,
     price = t +:+ Repeat "0" k /\ lastByte t <> Some "0"%char /\
     ((exists u, t = u +:+ "." /\
         priceLabels (updateLabel Error httpGet symbol w) !! symbol
           = Some (symbol +:+ "/USDT: " +:+ u)) \/
      (lastByte t <> Some "."%char /\
         priceLabels (updateLabel Error httpGet symbol w) !! symbol
           = Some (symbol +:+ "/USDT: " +:+ t)))) /\
  (exists int frac rest,
     price = int +:+ "." +:+ frac /\ ContainsByte int "." = false /\
     priceLabels (updateLabel Error httpGet symbol w) !! symbol
       = Some (symbol +:+ "/USDT: " +:+ int +:+ rest)).
Proof.
  intros Hlabel Hget Hdec Hprice Hpoint.
  rewrite updateLabel_own by exact Hlabel.
  unfold resultText. rewrite Hget, Hdec, Hprice. simpl default.
  unfold successText, priceText. split.
  - destruct (trimPrice_cases price) as (t & k & Hk & Hlast & Hcases).
    exists t, k. split; [exact Hk|]. split; [exact Hlast|].
    destruct Hcases as [(u & Hu & Htrim)|(Hdot & Htrim)]; rewrite Htrim.
    + left. exists u. now split.
    + right. now split.
  - destruct (ContainsByte_split price "." Hpoint) as (int & frac & -> & Hint).
    destruct (trimPrice_keeps_integer int frac) as [rest Hrest].
    exists int, frac, rest. rewrite Hrest. now repeat split.
Qed.

Lemma decimal_price_shown_witness :
  (exists t k,
     "50000.12000000" = t +:+ Repeat "0" k /\ lastByte t <> Some "0"%char /\
     ((exists u, t = u +:+ "." /\
         priceLabels (updateLabel Config.sampleError sampleNet "BTC"
                        (NewBinanceWidget ["BTC"])) !! "BTC"
           = Some ("BTC" +:+ "/USDT: " +:+ u)) \/
      (lastByte t <> Some "."%char /\
         priceLabels (updateLabel Config.sampleError sampleNet "BTC"
                        (NewBinanceWidget ["BTC"])) !! "BTC"
           = Some ("BTC" +:+ "/USDT: " +:+ t)))) /\
  (exists int frac rest,
     "50000.12000000" = int +:+ "." +:+ frac /\ ContainsByte int "." = false /\
     priceLabels (updateLabel Config.sampleError sampleNet "BTC"
                    (NewBinanceWidget ["BTC"])) !! "BTC"
       = Some ("BTC" +:+ "/USDT: " +:+ int +:+ rest)).
Proof.
  apply (decimal_price_shown Config.sampleError sampleNet (NewBinanceWidget ["BTC"]) "BTC"
           (mkResponse 200 (tickerBody "BTC" "50000.12000000"))
           {[ "symbol" := "BTCUSDT"; "price" := "50000.12000000" ]}
           "50000.12000000").
  - vm_compute. eauto.
  - vm_compute. reflexivity.
  - vm_compute. reflexivity.
  - vm_compute. reflexivity.
  - vm_compute. reflexivity.
Defined.

Example decimal_prices_shown :
  map (successText "BTC") ["123.45000"; "100.00000"; "0.00010000"]
  = ["BTC/USDT: 123.45"; "BTC/USDT: 100"; "BTC/USDT: 0.0001"].
Proof. reflexivity. Qed.



End WidgetFacts.

(** ** The refresh, whatever the schedule *)

Module RefreshFacts.
Import JSON GoStrings Format Widget TrimFacts WidgetFacts Schedule Reply.

Section Facts.
Variable Error : error -> string.
Variable httpGet : string -> GetResult.

Abbreviation updateLabel := (updateLabel Error httpGet).
Abbreviation resultText := (resultText Error httpGet).
Abbreviation step := (step Error httpGet).
Abbreviation reachable := (reachable Error httpGet).
Abbreviation updatePriceSeq := (updatePriceSeq Error httpGet).

(** The label of [s] after [updateLabel symbol]. *)
Lemma updateLabel_lookup (symbol s : string) (w : BinanceWidget) :
  priceLabels (updateLabel symbol w) !! s =
    if decide (s = symbol)
    then (fun _ => resultText (apiUrl w) symbol) <$> priceLabels w !! s
    else priceLabels w !! s.
Proof.
  rewrite updateLabel_SetText. unfold SetText. destruct (decide (s = symbol)) as [->|Hne].
  - destruct (priceLabels w !! symbol) eqn:E; simpl.
    + now rewrite lookup_insert_eq.
    + now rewrite E.
  - destruct (priceLabels w !! symbol); simpl; [|reflexivity].
    now rewrite lookup_insert_ne.
Qed.

Lemma updateLabel_apiUrl symbol w : apiUrl (updateLabel symbol w) = apiUrl w.
Proof. rewrite updateLabel_SetText. apply SetText_apiUrl. Qed.

Lemma updateLabel_symbols symbol w : symbols (updateLabel symbol w) = symbols w.
Proof. rewrite updateLabel_SetText. apply SetText_symbols. Qed.

(** The labels after a run of [updateLabel] calls. *)
Lemma fold_updateLabel (l : list string) :
  forall w,
    apiUrl (fold_left (fun w s => updateLabel s w) l w) = apiUrl w /\
    symbols (fold_left (fun w s => updateLabel s w) l w) = symbols w /\
    forall s,
      priceLabels (fold_left (fun w s => updateLabel s w) l w) !! s =
        if decide (s ∈ l)
        then (fun _ => resultText (apiUrl w) s) <$> priceLabels w !! s
        else priceLabels w !! s.
Proof.
  induction l as [|x l IH]; intros w; simpl.
  - split; [reflexivity|]. split; [reflexivity|].
    intros s. destruct (decide (s ∈ [])) as [H|_]; [|reflexivity].
    now apply elem_of_nil in H.
  - destruct (IH (updateLabel x w)) as (Ha & Hs & Hl).
    rewrite Ha, Hs, updateLabel_apiUrl, updateLabel_symbols.
    split; [reflexivity|]. split; [reflexivity|].
    intros s. rewrite Hl, updateLabel_lookup, updateLabel_apiUrl.
    destruct (decide (s ∈ l)) as [Hin|Hin], (decide (s = x)) as [->|Hne];
      destruct (decide (_ ∈ _ :: l)) as [Hin'|Hin']; try reflexivity.
    + now destruct (priceLabels w !! x).
    + contradiction Hin'. now right.
    + contradiction Hin'. now right.
    + contradiction Hin'. now left.
    + apply elem_of_cons in Hin' as [?|?]; contradiction.
Qed.


Lemma kept_step (w0 : BinanceWidget) (st st' : cycle) :
  kept w0 st -> step st st' -> kept w0 st'.
Proof.
  unfold kept, touched. intros Hk Hstep. destruct Hstep; simpl in *; intros s Hs.
  - now apply Hk.
  - apply Hk. intros [H|H]; apply Hs; [now left|right].
    apply elem_of_app. now left.
  - destruct (decide (s = symbol)) as [->|Hne].
    + contradiction Hs. right. apply elem_of_app. right. now left.
    + rewrite updateLabel_lookup. destruct (decide (s = symbol)); [contradiction|].
      apply Hk. intros [H|H]; apply Hs; [now left|right].
      rewrite !elem_of_app, !elem_of_cons in *.
      destruct H as [H|[H|H]]; auto. congruence.
  - apply Hk. intros [H|H]; apply Hs.
    + left. now right.
    + rewrite !elem_of_app, !elem_of_cons in H.
      destruct H as [H|[H|H]].
      * right. apply elem_of_app. now left.
      * injection H as ->. left. now left.
      * right. apply elem_of_app. now right.
  - now apply Hk.
Qed.

Lemma kept_reachable (w0 : BinanceWidget) (st : cycle) :
  reachable w0 st -> kept w0 st.
Proof.
  unfold Widget.reachable. revert st. apply rtc_ind_r.
  - intros s _. reflexivity.
  - intros y z _ Hstep IH. eapply kept_step; eassumption.
Qed.

Lemma widget_eq (w1 w2 : BinanceWidget) :
  apiUrl w1 = apiUrl w2 -> symbols w1 = symbols w2 ->
  (forall s, priceLabels w1 !! s = priceLabels w2 !! s) -> w1 = w2.
Proof.
  destruct w1, w2. simpl. intros -> -> H. f_equal. now apply map_eq.
Qed.

End Facts.

(** X1: whatever the order in which the goroutines of a refresh run, when
    [updatePrice] has returned the widget is the one that running
    [updateLabel] on the symbols one after the other, in list order, gives. *)
Theorem refresh_schedule_independent (Error : error -> string)
    (httpGet : string -> GetResult) (w : BinanceWidget) (st : cycle) :
  reachable Error httpGet w st -> main st = Returned ->
  widget st = updatePriceSeq Error httpGet w.
Proof.
  intros Hreach Hret.
  pose proof (inv_reachable _ _ _ _ Hreach) as Hinv.
  pose proof (kept_reachable _ _ _ _ Hreach) as Hkept.
  pose proof (inv_units _ _ _ _ Hinv) as Hu. rewrite Hret in Hu.
  destruct Hu as [Hnil Hperm].
  destruct (fold_updateLabel Error httpGet (symbols w) w) as (Ha & Hs & Hl).
  apply widget_eq.
  - rewrite (inv_apiUrl _ _ _ _ Hinv). symmetry. exact Ha.
  - rewrite (inv_symbols _ _ _ _ Hinv). symmetry. exact Hs.
  - intros s. unfold updatePriceSeq. rewrite Hl.
    destruct (decide (s ∈ symbols w)) as [Hin|Hin].
    + destruct (priceLabels w !! s) as [old|] eqn:E; simpl.
      * apply (inv_shown _ _ _ _ Hinv); [|rewrite E; eauto].
        left. now rewrite <- Hperm.
      * apply eq_None_not_Some. rewrite (inv_labels _ _ _ _ Hinv), E.
        now intros [? ?].
    + apply Hkept. unfold touched. rewrite Hnil, <- Hperm.
      intros [H|H]; [contradiction|]. now apply elem_of_nil in H.
Qed.

Lemma refresh_schedule_independent_witness :
  widget finishedCycle
  = updatePriceSeq Config.sampleError sampleNet (NewBinanceWidget ["BTC"]).
Proof.
  apply (refresh_schedule_independent Config.sampleError sampleNet
           (NewBinanceWidget ["BTC"]) finishedCycle).
  - unfold reachable, start, finishedCycle.
    eapply rtc_l; [apply step_add|].
    eapply rtc_l; [apply step_go|].
    eapply rtc_l; [apply (step_update _ _ _ "BTC" [] [])|].
    eapply rtc_l; [apply (step_done _ _ _ "BTC" [] [])|].
    apply rtc_once. apply step_return.
  - reflexivity.
Defined.


(** X3: in every state of a refresh the WaitGroup counter is the number of
    goroutines that are started and have not ended, plus one between a
    [wg.Add(1)] and the [go] statement after it; it is never negative and
    never above the number of symbols. *)
Theorem counter_counts_goroutines (Error : error -> string)
    (httpGet : string -> GetResult) (w : BinanceWidget) (st : cycle) :
  reachable Error httpGet w st ->
  counter st = (Z.of_nat (length (units st)) + pending (main st))%Z /\
  (0 <= counter st)%Z /\
  (counter st <= Z.of_nat (length (symbols w)))%Z.
Proof.
  intros Hreach. pose proof (inv_reachable _ _ _ _ Hreach) as Hinv.
  pose proof (inv_counter _ _ _ _ Hinv) as Hc.
  pose proof (inv_units _ _ _ _ Hinv) as Hu.
  split; [exact Hc|]. rewrite Hc.
  destruct (main st); simpl pending.
  - apply Permutation_length in Hu. rewrite !length_app, length_map in Hu. lia.
  - apply Permutation_length in Hu. rewrite !length_app, length_map in Hu.
    simpl in Hu. lia.
  - destruct Hu as [-> _]. simpl. lia.
Qed.

Lemma counter_counts_goroutines_witness :
  counter midCycle = (Z.of_nat (length (units midCycle)) + pending (main midCycle))%Z /\
  (0 <= counter midCycle)%Z /\
  (counter midCycle <= Z.of_nat (length (symbols (NewBinanceWidget ["BTC"; "ETH"]))))%Z.
Proof.
  apply (counter_counts_goroutines Config.sampleError sampleNet
           (NewBinanceWidget ["BTC"; "ETH"]) midCycle).
  unfold reachable, start, midCycle.
  eapply rtc_l; [apply step_add|].
  eapply rtc_l; [apply step_go|].
  eapply rtc_l; [apply (step_update _ _ _ "BTC" [] [])|].
  apply rtc_once. apply step_add.
Defined.

Lemma decodeMembers_type_error (ms : list (string * value)) :
  forall (m : gmap string string) (k : string) (v : value),
    find (fun kv => notString kv.2) ms = Some (k, v) ->
    snd (decodeMembers ms m) = Some (UnmarshalTypeError (kindOf v) "string" k).
Proof.
  induction ms as [|[k' v'] ms IH]; intros m k v Hfind; [discriminate|].
  simpl in Hfind. simpl decodeMembers.
  destruct (notString v') eqn:Hn.
  - injection Hfind as -> ->.
    destruct v; try discriminate;
      now destruct (decodeMembers ms (<[k := EmptyString]> m)).
  - specialize (IH (<[k' := match v' with Str s => s | _ => EmptyString end]> m) k v Hfind).
    destruct v'; try discriminate; simpl in *;
      destruct (decodeMembers ms _); simpl in *; exact IH.
Qed.

(** X4: a reply that the decoder reads as an object with a member that is
    neither a string nor [null] puts the decoder's type error on the label,
    for the first such member and with its key, whatever the status and
    whether or not a price came with it. *)
Theorem reply_type_error_shown (Error : error -> string)
    (httpGet : string -> GetResult) (apiUrl symbol : string) (resp : Response)
    (ms : list (string * value)) (rest k : string) (v : value) :
  httpGet (apiUrl +:+ symbol +:+ "USDT") = GetOk resp ->
  parseFirst (Body resp) = Scanned (Object ms) rest ->
  find (fun kv => notString kv.2) ms = Some (k, v) ->
  resultText Error httpGet apiUrl symbol
  = "Error: " +:+ Error (UnmarshalTypeError (kindOf v) "string" k).
Proof.
  intros Hget Hparse Hfind. unfold resultText, Decode. rewrite Hget, Hparse.
  simpl decodeStringMap.
  pose proof (decodeMembers_type_error ms ∅ k v Hfind) as H.
  destruct (decodeMembers ms ∅) as [data e]. simpl in H. now subst e.
Qed.

Lemma reply_type_error_shown_witness :
  resultText Config.sampleError (constNet 400 invalidSymbolBody)
             "https://api.binance.com/api/v3/ticker/price?symbol=" "FOO"
  = "Error: " +:+ Config.sampleError
                    (UnmarshalTypeError (kindOf (Number "-1121")) "string" "code").
Proof.
  apply (reply_type_error_shown Config.sampleError (constNet 400 invalidSymbolBody)
           "https://api.binance.com/api/v3/ticker/price?symbol=" "FOO"
           (mkResponse 400 invalidSymbolBody)
           [("code", Number "-1121"); ("msg", Str "Invalid symbol.")]
           EmptyString "code" (Number "-1121")).
  - reflexivity.
  - vm_compute. reflexivity.
  - reflexivity.
Defined.

End RefreshFacts.

(** ** What a config file gives *)

Module LoadFacts.
Import JSON Config ConfigFacts ConfigValues.

Lemma decodeElems_fst (vs : list value) :
  fst (decodeElems vs) = map (fun v => fst (decodeStringPtr v)) vs.
Proof.
  induction vs as [|v vs IH]; [reflexivity|]. simpl.
  destruct (decodeStringPtr v) as [p e], (decodeElems vs) as [ps es].
  simpl in *. now rewrite IH.
Qed.

Lemma derefAll_no_null (vs : list value) (acc : list string) :
  forallb (fun v => negb (isNull v)) vs = true ->
  derefAll (map (fun v => fst (decodeStringPtr v)) vs) acc = Some (acc ++ map symbolOf vs).
Proof.
  revert acc. induction vs as [|v vs IH]; intros acc H; simpl in *.
  - now rewrite app_nil_r.
  - apply andb_prop in H as [Hv Hvs].
    destruct v; simpl in *; try discriminate; rewrite (IH _ Hvs), <- app_assoc; reflexivity.
Qed.

Lemma derefAll_null (vs : list value) (acc : list string) :
  existsb isNull vs = true ->
  derefAll (map (fun v => fst (decodeStringPtr v)) vs) acc = None.
Proof.
  revert acc. induction vs as [|v vs IH]; intros acc H; simpl in *; [discriminate|].
  destruct v; simpl in *; try reflexivity; now apply IH.
Qed.

(** X5: a readable config that [json.Unmarshal] accepts (nesting within
    the limit included) and that is an array without [null] gives one symbol
    per element, in order: strings as they are, and the empty string for
    every element of another type; no error is returned. *)
Theorem load_array_elements (Error : error -> string) (w : World)
    (content : string) (vs : list value) :
  files w !! configPathOf (HOME w) = Some (RegularFile content) ->
  parseWhole content = Some (Array vs) ->
  forallb (fun v => negb (isNull v)) vs = true ->
  loadSymbolsFromConfig Error w = (Return (map symbolOf vs) None, w).
Proof.
  intros Hf Hp Hn. rewrite (load_regular Error w content Hf).
  unfold Unmarshal. rewrite Hp. simpl. rewrite decodeElems_fst.
  now rewrite (derefAll_no_null vs [] Hn).
Qed.

Lemma load_array_elements_witness :
  loadSymbolsFromConfig sampleError (worldWithConfig mixedConfigText)
  = (Return (map symbolOf [Str "BTC"; Number "5"; Object []; Bool true]) None,
     worldWithConfig mixedConfigText).
Proof.
  apply (load_array_elements sampleError (worldWithConfig mixedConfigText)
           mixedConfigText [Str "BTC"; Number "5"; Object []; Bool true]).
  - vm_compute. reflexivity.
  - vm_compute. reflexivity.
  - reflexivity.
Defined.

(** X6: a readable config that [json.Unmarshal] accepts (nesting within
    the limit included) and that is an array with a [null] element, at any
    place, makes the load panic. *)
Theorem load_array_with_null (Error : error -> string) (w : World)
    (content : string) (vs : list value) :
  files w !! configPathOf (HOME w) = Some (RegularFile content) ->
  parseWhole content = Some (Array vs) ->
  existsb isNull vs = true ->
  loadSymbolsFromConfig Error w = (Panic, w).
Proof.
  intros Hf Hp Hn. rewrite (load_regular Error w content Hf).
  unfold Unmarshal. rewrite Hp. simpl. rewrite decodeElems_fst.
  now rewrite (derefAll_null vs [] Hn).
Qed.

Lemma load_array_with_null_witness :
  loadSymbolsFromConfig sampleError (worldWithConfig nullConfigText)
  = (Panic, worldWithConfig nullConfigText).
Proof.
  apply (load_array_with_null sampleError (worldWithConfig nullConfigText)
           nullConfigText [Str "BTC"; Null]).
  - vm_compute. reflexivity.
  - vm_compute. reflexivity.
  - reflexivity.
Defined.

(** X7: a readable config that is not a JSON array (not JSON at all, or an
    object, a string, a number, a literal) gives the empty list and no
    error. *)
Theorem load_not_an_array (Error : error -> string) (w : World) (content : string) :
  files w !! configPathOf (HOME w) = Some (RegularFile content) ->
  (forall vs, parseWhole content <> Some (Array vs)) ->
  loadSymbolsFromConfig Error w = (Return [] None, w).
Proof.
  intros Hf Hp. rewrite (load_regular Error w content Hf).
  unfold Unmarshal. destruct (parseWhole content) as [v|]; [|reflexivity].
  destruct v; try reflexivity. now contradiction (Hp elems).
Qed.

Lemma load_not_an_array_witness :
  loadSymbolsFromConfig sampleError (worldWithConfig objectConfigText)
  = (Return [] None, worldWithConfig objectConfigText).
Proof.
  apply (load_not_an_array sampleError (worldWithConfig objectConfigText) objectConfigText).
  - vm_compute. reflexivity.
  - intros vs. vm_compute. discriminate.
Defined.

(** X8: the load writes only when [os.Open] reports that the path does not
    exist: whatever else is at the path, no file is changed. *)
Theorem load_keeps_existing (Error : error -> string) (w : World) (n : node) :
  files w !! configPathOf (HOME w) = Some n ->
  n <> OpenFails ENOENT ->
  files (snd (loadSymbolsFromConfig Error w)) = files w.
Proof.
  intros Hn Hne. destruct n as [content|errno|errno].
  - now rewrite (load_regular Error w content Hn).
  - rewrite (load_open_fails Error w errno Hn); [reflexivity|]. congruence.
  - now rewrite (load_read_fails Error w errno Hn).
Qed.

Lemma load_keeps_existing_witness :
  files (snd (loadSymbolsFromConfig sampleError (worldWithConfig "not json")))
  = files (worldWithConfig "not json").
Proof.
  apply (load_keeps_existing sampleError (worldWithConfig "not json")
           (RegularFile "not json")).
  - vm_compute. reflexivity.
  - discriminate.
Defined.

(** X9: the file a first start writes reads back as the default list: after
    a load that found no config and could write, a second load returns the
    same list, prints nothing and changes nothing. *)
Theorem reload_after_bootstrap (Error : error -> string) (w : World) :
  files w !! configPathOf (HOME w) = None ->
  writeErr w = None ->
  loadSymbolsFromConfig Error (snd (loadSymbolsFromConfig Error w))
  = (fst (loadSymbolsFromConfig Error w), snd (loadSymbolsFromConfig Error w)).
Proof.
  intros H Hw. rewrite (load_missing Error w H).
  unfold createDefaultConfig, WriteFile. simpl. rewrite Hw. simpl.
  erewrite load_regular; [|simpl; apply lookup_insert_eq].
  reflexivity.
Qed.

Lemma reload_after_bootstrap_witness :
  loadSymbolsFromConfig sampleError (snd (loadSymbolsFromConfig sampleError freshWorld))
  = (fst (loadSymbolsFromConfig sampleError freshWorld),
     snd (loadSymbolsFromConfig sampleError freshWorld)).
Proof. apply (reload_after_bootstrap sampleError freshWorld); reflexivity. Defined.

(** X10: the load prints a line exactly when the config path cannot be
    opened. *)
Theorem load_prints_iff (Error : error -> string) (w : World) :
  stdout (snd (loadSymbolsFromConfig Error w)) = stdout w <->
  exists file, Open w (configPathOf (HOME w)) = inr file.
Proof.
  assert (Hneq : forall (l : list string) x, l ++ [x] <> l).
  { intros l x H. apply (f_equal length) in H. rewrite length_app in H. simpl in H. lia. }
  unfold loadSymbolsFromConfig.
  destruct (Open w (configPathOf (HOME w))) as [err|file] eqn:E.
  - split; [|intros [file H]; discriminate].
    intros H. exfalso. destruct (IsNotExist err).
    + unfold createDefaultConfig, WriteFile in H. simpl in H.
      destruct (writeErr w); simpl in H; now apply Hneq in H.
    + simpl in H. now apply Hneq in H.
  - split; [eauto|]. intros _.
    destruct (parseSymbolsFromConfig file) as [ptrs [err|]]; [reflexivity|].
    now destruct (derefAll ptrs []).
Qed.

(** X11: with no config file the line printed names the default symbols as
    [fmt] writes a slice, [[BTC ETH SOL]], whether or not the file could be
    written. *)
Theorem load_missing_prints (Error : error -> string) (w : World) :
  files w !! configPathOf (HOME w) = None ->
  stdout (snd (loadSymbolsFromConfig Error w))
  = stdout w ++ ["Config file not found, creating a new one with default symbols: [BTC ETH SOL]"
                 +:+ newline].
Proof.
  intros H. rewrite (load_missing Error w H).
  unfold createDefaultConfig, WriteFile. simpl.
  now destruct (writeErr w).
Qed.

Lemma load_missing_prints_witness :
  stdout (snd (loadSymbolsFromConfig sampleError freshWorld))
  = stdout freshWorld
    ++ ["Config file not found, creating a new one with default symbols: [BTC ETH SOL]"
        +:+ newline].
Proof. apply (load_missing_prints sampleError freshWorld). reflexivity. Defined.

(** A config nested as deep as the decoder reads gives the one symbol of
    its one element; one level more and the text is rejected, nothing is
    stored, and the list is empty. *)
Example load_nesting_limit :
  fst (loadSymbolsFromConfig sampleError (worldWithConfig (nestedArrays 10000)))
    = Return [EmptyString] None /\
  fst (loadSymbolsFromConfig sampleError (worldWithConfig (nestedArrays 10001)))
    = Return [] None /\
  fst (loadSymbolsFromConfig sampleError
         (worldWithConfig ("[null," +:+ nestedArrays 10000 +:+ "]")))
    = Return [] None.
Proof. repeat split; vm_compute; reflexivity. Qed.

End LoadFacts.

(** ** The number a shown price denotes *)

Module DecimalFacts.
Import UTF8 JSON GoStrings Format TrimFacts Decimal.

Lemma app_empty_r (s : string) : s +:+ EmptyString = s.
Proof. induction s as [|a s IH]; [reflexivity|]. now rewrite app_cons, IH. Qed.

Lemma allDigits_app (a b : string) :
  allDigits (a +:+ b) = allDigits a && allDigits b.
Proof.
  induction a as [|c a IH]; [reflexivity|]. rewrite app_cons. simpl.
  now rewrite IH, andb_assoc.
Qed.

Lemma allDigits_Repeat (k : nat) : allDigits (Repeat "0" k) = true.
Proof. induction k as [|k IH]; [reflexivity|]. simpl Repeat. now rewrite app_cons. Qed.

Lemma allDigits_no_point (s : string) :
  allDigits s = true -> ContainsByte s "." = false.
Proof.
  induction s as [|c s IH]; [reflexivity|]. simpl. intros H.
  apply andb_prop in H as [Hc Hs]. rewrite (IH Hs).
  destruct (Ascii.eqb c ".") eqn:E; [|reflexivity].
  apply Ascii.eqb_eq in E. subst c. discriminate.
Qed.

Lemma allDigits_lastByte (s : string) (c : ascii) :
  allDigits s = true -> lastByte s = Some c -> isDigit c = true.
Proof.
  induction s as [|a s IH]; [discriminate|]. simpl allDigits. intros H.
  apply andb_prop in H as [Ha Hs]. destruct s as [|b s].
  - simpl. now intros [= <-].
  - rewrite lastByte_cons. now apply IH.
Qed.

Lemma splitPoint_app (i f : string) :
  ContainsByte i "." = false -> splitPoint (i +:+ String "." f) = Some (i, f).
Proof.
  induction i as [|c i IH]; [reflexivity|]. rewrite app_cons. simpl.
  intros H. apply orb_false_elim in H as [Hc Hi]. rewrite Hc, (IH Hi). reflexivity.
Qed.

Lemma splitPoint_None (s : string) :
  ContainsByte s "." = false -> splitPoint s = None.
Proof.
  induction s as [|c s IH]; [reflexivity|]. simpl.
  intros H. apply orb_false_elim in H as [Hc Hs]. now rewrite Hc, (IH Hs).
Qed.

Lemma digitsValFrom_app (a b : string) (acc : N) :
  digitsValFrom acc (a +:+ b) = digitsValFrom (digitsValFrom acc a) b.
Proof.
  revert acc. induction a as [|c a IH]; intros acc; [reflexivity|].
  rewrite app_cons. simpl. apply IH.
Qed.

Lemma digitsValFrom_zeros (k : nat) (acc : N) :
  digitsValFrom acc (Repeat "0" k) = (acc * 10 ^ N.of_nat k)%N.
Proof.
  revert acc. induction k as [|k IH]; intros acc.
  - simpl. lia.
  - simpl Repeat. rewrite app_cons, app_empty_l. simpl digitsValFrom.
    rewrite IH. rewrite Nat2N.inj_succ, N.pow_succ_r'.
    change (byte "0" - 48)%N with 0%N. lia.
Qed.

Lemma length_Repeat (k : nat) : String.length (Repeat "0" k) = k.
Proof.
  induction k as [|k IH]; [reflexivity|]. simpl Repeat.
  rewrite app_cons, app_empty_l. simpl. now rewrite IH.
Qed.

(** What the reading of a well-formed raw price is. *)
Lemma readDecimal_point (i f : string) :
  allDigits i = true -> allDigits f = true ->
  readDecimal (i +:+ String "." f) = Some (digitsVal (i +:+ f), String.length f).
Proof.
  intros Hi Hf. unfold readDecimal.
  rewrite (splitPoint_app i f (allDigits_no_point i Hi)). now rewrite Hi, Hf.
Qed.

Lemma readDecimal_digits (s : string) :
  allDigits s = true -> readDecimal s = Some (digitsVal s, 0).
Proof.
  intros Hs. unfold readDecimal.
  rewrite (splitPoint_None s (allDigits_no_point s Hs)). now rewrite Hs.
Qed.

(** The trim of a raw price with digits around one point. *)
Lemma trimPrice_decimal (i f' : string) (k : nat) :
  allDigits f' = true -> lastByte f' <> Some "0"%char ->
  trimPrice (i +:+ String "." (f' +:+ Repeat "0" k)) =
    match f' with
    | EmptyString => i
    | String _ _ => i +:+ String "." f'
    end.
Proof.
  intros Hd Hlast. unfold trimPrice.
  change (TrimRight (i +:+ String "." (f' +:+ Repeat "0" k)) "0")
    with (trimRightByte (i +:+ String "." (f' +:+ Repeat "0" k)) "0").
  assert (Hk : trimRightByte (String "." (f' +:+ Repeat "0" k)) "0" = String "." f').
  { rewrite trimRightByte_keeps by discriminate.
    now rewrite trimRightByte_app_repeat. }
  rewrite trimRightByte_app_l by (rewrite Hk; discriminate).
  rewrite Hk. destruct f' as [|c f'].
  - assert (Hs : HasSuffix (i +:+ ".") "." = true)
      by (apply HasSuffix_byte; clear; induction i as [|a i IH];
          [reflexivity|]; rewrite app_cons; destruct i; [reflexivity|];
          rewrite app_cons in *; now rewrite lastByte_cons).
    rewrite Hs. apply sliceTo_snoc.
  - destruct (HasSuffix (i +:+ String "." (String c f')) ".") eqn:Hs; [|reflexivity].
    apply HasSuffix_byte in Hs.
    assert (Hl : lastByte (i +:+ String "." (String c f')) = lastByte (String c f')).
    { clear. induction i as [|a i IH]; [reflexivity|].
      rewrite app_cons. destruct i as [|b i]; [reflexivity|].
      rewrite app_cons in *. now rewrite lastByte_cons. }
    rewrite Hl in Hs. apply (allDigits_lastByte _ _ Hd) in Hs. discriminate.
Qed.

(** X12: for a raw price made of digits, one point and digits, what is shown
    reads as the same number as the raw price. *)
Theorem trimPrice_same_number (i f : string) :
  allDigits i = true -> allDigits f = true ->
  exists raw shown,
    readDecimal (i +:+ "." +:+ f) = Some raw /\
    readDecimal (trimPrice (i +:+ "." +:+ f)) = Some shown /\
    sameNumber shown raw.
Proof.
  intros Hi Hf. change (i +:+ "." +:+ f) with (i +:+ String "." f).
  rewrite (readDecimal_point i f Hi Hf).
  destruct (trimRightByte_spec f "0") as (k & Hk & Hlast).
  remember (trimRightByte f "0") as f' eqn:E. clear E. subst f.
  rewrite allDigits_app in Hf. apply andb_prop in Hf as [Hf' _].
  rewrite (trimPrice_decimal i f' k Hf' Hlast).
  assert (Hval : digitsVal (i +:+ f' +:+ Repeat "0" k)
                 = (digitsVal (i +:+ f') * 10 ^ N.of_nat k)%N).
  { unfold digitsVal. now rewrite !digitsValFrom_app, digitsValFrom_zeros. }
  eexists. exists (match f' with
                   | EmptyString => (digitsVal i, 0)
                   | String _ _ => (digitsVal (i +:+ f'), String.length f')
                   end).
  split; [reflexivity|]. split.
  - destruct f'; [now apply readDecimal_digits|now apply readDecimal_point].
  - unfold sameNumber. simpl fst. simpl snd.
    rewrite Hval, string_length_app, length_Repeat.
    destruct f' as [|c f'']; simpl fst; simpl snd.
    + rewrite app_empty_r.
      simpl String.length. simpl Nat.add. change (N.of_nat 0) with 0%N.
      rewrite N.pow_0_r. lia.
    + rewrite Nat2N.inj_add, N.pow_add_r. simpl String.length.
      generalize (10 ^ N.of_nat (S (String.length f'')))%N, (10 ^ N.of_nat k)%N,
        (digitsVal (i +:+ String c f'')).
      intros p q a. ring.
Qed.

Lemma trimPrice_same_number_witness :
  exists raw shown,
    readDecimal ("50000" +:+ "." +:+ "12000000") = Some raw /\
    readDecimal (trimPrice ("50000" +:+ "." +:+ "12000000")) = Some shown /\
    sameNumber shown raw.
Proof. apply (trimPrice_same_number "50000" "12000000"); reflexivity. Defined.

Lemma ContainsByte_app (a b : string) (c : ascii) :
  ContainsByte (a +:+ b) c = ContainsByte a c || ContainsByte b c.
Proof.
  induction a as [|x a IH]; [reflexivity|]. rewrite app_cons. simpl.
  now rewrite IH, orb_assoc.
Qed.

(** X13: a raw price is shown unchanged exactly when it ends neither in a
    zero nor in a point. *)
Theorem trimPrice_unchanged_iff (price : string) :
  trimPrice price = price <->
  lastByte price <> Some "0"%char /\ lastByte price <> Some "."%char.
Proof.
  split.
  - intros Heq. destruct (trimPrice_cases price) as (t & k & Hk & Hlast & Hcases).
    destruct Hcases as [(u & Hu & Htrim)|(Hdot & Htrim)].
    + exfalso. rewrite Heq in Htrim. subst u. rewrite Hu in Hk.
      apply (f_equal String.length) in Hk.
      rewrite !string_length_app in Hk. simpl in Hk. lia.
    + rewrite Heq in Htrim. now subst t.
  - intros [H0 Hdot]. unfold trimPrice.
    change (TrimRight price "0") with (trimRightByte price "0").
    pose proof (trimRightByte_app_repeat price "0" 0 H0) as Ht.
    simpl Repeat in Ht. rewrite app_empty_r in Ht. rewrite Ht.
    destruct (HasSuffix price ".") eqn:Hs; [|reflexivity].
    apply HasSuffix_byte in Hs. contradiction.
Qed.

(** X14: for a raw price of digits only, what is shown is the raw price
    without its trailing zeroes, all of them: the number shown times ten to
    their count is the raw number. *)
Theorem integer_price_divided (price : string) :
  allDigits price = true ->
  exists k,
    price = trimPrice price +:+ Repeat "0" k /\
    lastByte (trimPrice price) <> Some "0"%char /\
    digitsVal price = (digitsVal (trimPrice price) * 10 ^ N.of_nat k)%N.
Proof.
  intros Hd. destruct (trimPrice_cases price) as (t & k & Hk & Hlast & Hcases).
  destruct Hcases as [(u & Hu & Htrim)|(Hdot & Htrim)].
  - exfalso. apply allDigits_no_point in Hd. rewrite Hk, Hu in Hd.
    rewrite !ContainsByte_app in Hd. simpl in Hd.
    now rewrite orb_true_r in Hd.
  - exists k. rewrite Htrim. split; [exact Hk|]. split; [exact Hlast|].
    unfold digitsVal. rewrite Hk at 1.
    now rewrite digitsValFrom_app, digitsValFrom_zeros.
Qed.

Lemma integer_price_divided_witness :
  exists k,
    "50000" = trimPrice "50000" +:+ Repeat "0" k /\
    lastByte (trimPrice "50000") <> Some "0"%char /\
    digitsVal "50000" = (digitsVal (trimPrice "50000") * 10 ^ N.of_nat k)%N.
Proof. apply (integer_price_divided "50000"). reflexivity. Defined.

End DecimalFacts.

(** ** The widget as a whole: labels, colours, the mouse, [main] *)

Module ShellFacts.
Import JSON Config Shell.

(** *** The label loop *)

Lemma addLabel_fold_fields (l : list string) (w : BinanceWidget) :
  apiUrl (fold_left addLabel l w) = apiUrl w /\
  symbols (fold_left addLabel l w) = symbols w /\
  oldPos (fold_left addLabel l w) = oldPos w /\
  pos (fold_left addLabel l w) = pos w.
Proof.
  revert w. induction l as [|x l IH]; intros w; simpl; [easy|].
  destruct (IH (addLabel w x)) as (-> & -> & -> & ->). easy.
Qed.

(** The labels and the map after the label loop, over the list [l] and from
    a widget without labels. *)
Lemma addLabel_fold (l : list string) (w : BinanceWidget) :
  labels w = [] -> priceLabels w = ∅ ->
  labels (fold_left addLabel l w) = replicate (length l) loadingLabel /\
  forall s i, priceLabels (fold_left addLabel l w) !! s = Some i <->
              l !! i = Some s /\ forall j, i < j -> l !! j <> Some s.
Proof.
  intros Hl Hm. induction l as [|x l [IHl IHm]] using rev_ind.
  - simpl. split; [exact Hl|]. intros s i. rewrite Hm, lookup_empty. split; [discriminate|].
    intros [H _]. now rewrite lookup_nil in H.
  - rewrite fold_left_app. simpl fold_left.
    set (w' := fold_left addLabel l w) in *. unfold addLabel. simpl.
    rewrite IHl, length_replicate, length_app. simpl.
    split.
    { rewrite Nat.add_1_r. now rewrite replicate_S_end. }
    intros s i. destruct (decide (s = x)) as [->|Hne].
    + rewrite lookup_insert_eq. split.
      * intros [= <-]. split.
        -- rewrite lookup_app_r by lia. now rewrite Nat.sub_diag.
        -- intros j Hj. rewrite lookup_ge_None_2; [easy|]. rewrite length_app. simpl. lia.
      * intros [Hi Hlater]. f_equal.
        destruct (decide (i < length l)) as [Hlt|Hge].
        -- exfalso. apply (Hlater (length l) Hlt).
           rewrite lookup_app_r by lia. now rewrite Nat.sub_diag.
        -- apply lookup_lt_Some in Hi. rewrite length_app in Hi. simpl in Hi. lia.
    + rewrite lookup_insert_ne by congruence. rewrite IHm. split.
      * intros [Hi Hlater]. pose proof (lookup_lt_Some _ _ _ Hi) as Hlt. split.
        -- now rewrite lookup_app_l.
        -- intros j Hj Hjs. destruct (decide (j < length l)) as [Hjl|Hjl].
           ++ rewrite lookup_app_l in Hjs by exact Hjl. now apply (Hlater j).
           ++ rewrite lookup_app_r in Hjs by lia.
              destruct (j - length l) as [|n]; simpl in Hjs; [congruence|].
              now rewrite lookup_nil in Hjs.
      * intros [Hi Hlater].
        assert (Hlt : i < length l).
        { destruct (decide (i < length l)) as [?|Hge]; [assumption|exfalso].
          rewrite lookup_app_r in Hi by lia.
          destruct (i - length l) as [|n]; simpl in Hi; [congruence|].
          now rewrite lookup_nil in Hi. }
        rewrite lookup_app_l in Hi by exact Hlt. split; [exact Hi|].
        intros j Hj Hjs. apply (Hlater j Hj).
        rewrite lookup_app_l; [exact Hjs|]. now apply lookup_lt_Some in Hjs.
Qed.

Lemma addLabel_fold_is_Some (s : string) (l : list string) :
  forall w, s ∈ l \/ is_Some (priceLabels w !! s) ->
            is_Some (priceLabels (fold_left addLabel l w) !! s).
Proof.
  induction l as [|x l IH]; intros w H; simpl.
  - destruct H as [H|H]; [now apply elem_of_nil in H|exact H].
  - apply IH. destruct H as [H|H].
    + apply elem_of_cons in H as [->|H]; [right|now left].
      unfold addLabel. simpl. rewrite lookup_insert_eq. eauto.
    + right. unfold addLabel. simpl. destruct (decide (x = s)) as [->|Hne].
      * rewrite lookup_insert_eq. eauto.
      * now rewrite lookup_insert_ne.
Qed.

Lemma new_widget_spec (l : list string) (at_ : Z * Z) :
  apiUrl (NewBinanceWidget l at_) = "https://api.binance.com/api/v3/ticker/price?symbol=" /\
  symbols (NewBinanceWidget l at_) = l /\
  labels (NewBinanceWidget l at_) = replicate (length l) loadingLabel /\
  forall s i, priceLabels (NewBinanceWidget l at_) !! s = Some i <->
              l !! i = Some s /\ forall j, i < j -> l !! j <> Some s.
Proof.
  unfold NewBinanceWidget, initUI. simpl.
  set (w0 := mkWidget _ [] ∅ l (0, 0)%Z at_).
  destruct (addLabel_fold_fields l w0) as (Ha & Hs & _ & _).
  destruct (addLabel_fold l w0 eq_refl eq_refl) as [Hl Hm].
  split; [exact Ha|]. split; [exact Hs|]. split; [exact Hl|exact Hm].
Qed.

(** Every symbol of the list has a label in a new widget. *)
Lemma new_widget_held (l : list string) (at_ : Z * Z) (s : string) :
  s ∈ l ->
  exists i, priceLabels (NewBinanceWidget l at_) !! s = Some i /\
            labels (NewBinanceWidget l at_) !! i = Some loadingLabel.
Proof.
  intros Hin. unfold NewBinanceWidget, initUI. simpl.
  set (w0 := mkWidget _ [] ∅ l (0, 0)%Z at_).
  destruct (addLabel_fold l w0 eq_refl eq_refl) as [Hl Hm].
  destruct (addLabel_fold_is_Some s l w0 (or_introl Hin)) as [i Hi].
  exists i. split; [exact Hi|]. rewrite Hl. apply lookup_replicate_2.
  apply Hm in Hi as [Hi _]. now apply lookup_lt_Some in Hi.
Qed.

Lemma new_widget_uniform (l : list string) (at_ : Z * Z) :
  uniform green (NewBinanceWidget l at_).
Proof.
  intros s i label _ Hi. destruct (new_widget_spec l at_) as (_ & _ & Hl & _).
  rewrite Hl in Hi. apply lookup_replicate_1 in Hi as [-> _]. now split.
Qed.

Lemma new_widget_bound (l : list string) (at_ : Z * Z) (s : string) :
  s ∈ symbols (NewBinanceWidget l at_) ->
  exists i, priceLabels (NewBinanceWidget l at_) !! s = Some i /\
            i < length (labels (NewBinanceWidget l at_)).
Proof.
  destruct (new_widget_spec l at_) as (_ & Hs & _ & _). rewrite Hs. intros Hin.
  destruct (new_widget_held l at_ s Hin) as (i & Hi & Hl).
  exists i. split; [exact Hi|]. now apply lookup_lt_Some in Hl.
Qed.

(** *** The loop of the context menu *)

Lemma recolor_lookup (c : QColor) (held : list nat) (ls : list QLabel) (j : nat) :
  recolor c held ls !! j =
    if decide (j ∈ held) then SetColorSheet c <$> ls !! j else ls !! j.
Proof.
  induction held as [|i held IH]; simpl.
  - destruct (decide (j ∈ [])) as [H|_]; [now apply elem_of_nil in H|reflexivity].
  - destruct (decide (i = j)) as [->|Hne].
    + rewrite list_lookup_alter_eq, IH.
      destruct (decide (j ∈ j :: held)) as [_|H]; [|contradiction H; now left].
      destruct (decide (j ∈ held)); [|reflexivity].
      now destruct (ls !! j).
    + rewrite list_lookup_alter_ne by exact Hne. rewrite IH.
      destruct (decide (j ∈ held)) as [H|H], (decide (j ∈ i :: held)) as [H'|H'];
        try reflexivity.
      * contradiction H'. now right.
      * apply elem_of_cons in H' as [->|?]; contradiction.
Qed.

Lemma length_recolor (c : QColor) (held : list nat) (ls : list QLabel) :
  length (recolor c held ls) = length ls.
Proof. induction held as [|i held IH]; simpl; [reflexivity|]. now rewrite length_alter. Qed.

Lemma held_elem (m : gmap string nat) (j : nat) :
  j ∈ (map_to_list m).*2 <-> exists s, m !! s = Some j.
Proof.
  rewrite list_elem_of_fmap. split.
  - intros ([s i] & -> & H). exists s. now apply elem_of_map_to_list in H.
  - intros [s H]. exists (s, j). split; [reflexivity|]. now apply elem_of_map_to_list.
Qed.

Lemma invert_invert (c : QColor) : invert (invert c) = c.
Proof. destruct c as [r g b]. unfold invert. simpl. f_equal; lia. Qed.

Lemma palette_parity (events : list event) (c : QColor) :
  palette events c =
    if Nat.even (length (filter (fun e => isContextMenu e = true) events))
    then c else invert c.
Proof.
  revert c. induction events as [|e events IH]; intros c; [reflexivity|].
  destruct e; simpl palette; rewrite IH;
    try (rewrite filter_cons_False by (simpl; discriminate); reflexivity).
  rewrite filter_cons_True by reflexivity. simpl length.
  rewrite Nat.even_succ, <- Nat.negb_even.
  destruct (Nat.even _); simpl; [reflexivity|apply invert_invert].
Qed.

(** *** What the handlers keep *)

Section Facts.
Variable Error : error -> string.
Variable httpGet : string -> Widget.GetResult.

Abbreviation updateLabel := (updateLabel Error httpGet).
Abbreviation handle := (handle Error httpGet).
Abbreviation run := (run Error httpGet).
Abbreviation showing := (showing Error httpGet).

Lemma stable_refl (w : BinanceWidget) : stable w w.
Proof. now split. Qed.

Lemma handle_stable (w0 w w' : BinanceWidget) (e : event) :
  stable w0 w -> handle e w = Done w' -> stable w0 w'.
Proof.
  intros [Ha Hs Hm Hl Ho] H. destruct e as [symbol| |g|g]; simpl in H.
  - unfold Shell.updateLabel in H.
    destruct (priceLabels w !! symbol) as [i|] eqn:E; [|discriminate].
    injection H as <-. split; simpl; try assumption.
    + now rewrite length_alter.
    + intros j Hj. rewrite list_lookup_alter_ne; [now apply Ho|].
      intros ->. apply (Hj symbol). now rewrite <- Hm.
  - unfold contextMenuEvent in H. destruct (symbols w) as [|first rest]; [discriminate|].
    destruct (priceLabels w !! first ≫= _) as [label|]; [|discriminate].
    injection H as <-. split; simpl; try assumption.
    + now rewrite length_recolor.
    + intros j Hj. rewrite recolor_lookup.
      destruct (decide (j ∈ _)) as [Hin|_]; [|now apply Ho].
      apply held_elem in Hin as [s Hin]. rewrite Hm in Hin. now contradiction (Hj s).
  - injection H as <-. now split.
  - injection H as <-. now split.
Qed.

Lemma run_stable (events : list event) :
  forall w0 w w', stable w0 w -> run events w = Done w' -> stable w0 w'.
Proof.
  induction events as [|e events IH]; intros w0 w w' Hst H; simpl in H.
  - now injection H as <-.
  - destruct (handle e w) as [w1| |] eqn:E; try discriminate.
    eapply IH; [|exact H]. eapply handle_stable; eassumption.
Qed.

Lemma handle_colors (w w' : BinanceWidget) (e : event) (c : QColor) :
  uniform c w -> handle e w = Done w' ->
  uniform (palette [e] c) w'.
Proof.
  intros Hu H. destruct e as [symbol| |g|g]; simpl in *.
  - unfold Shell.updateLabel in H.
    destruct (priceLabels w !! symbol) as [i|] eqn:E; [|discriminate].
    injection H as <-. intros s j label Hs Hj. simpl in *.
    destruct (decide (i = j)) as [->|Hne].
    + rewrite list_lookup_alter_eq in Hj.
      destruct (labels w !! j) as [old|] eqn:Eo; [|discriminate].
      injection Hj as <-. simpl. now apply (Hu s j old).
    + rewrite list_lookup_alter_ne in Hj by exact Hne. now apply (Hu s j).
  - unfold contextMenuEvent in H. destruct (symbols w) as [|first rest]; [discriminate|].
    destruct (priceLabels w !! first) as [i|] eqn:Ei; simpl in H; [|discriminate].
    destruct (labels w !! i) as [label0|] eqn:El; [|discriminate].
    injection H as <-. destruct (Hu first i label0 Ei El) as [Hc _].
    intros s j label Hs Hj. simpl in *. rewrite recolor_lookup in Hj.
    destruct (decide (j ∈ _)) as [_|Hn].
    + destruct (labels w !! j); [|discriminate]. injection Hj as <-.
      simpl. rewrite Hc. now split.
    + contradiction Hn. apply held_elem. eauto.
  - injection H as <-. exact Hu.
  - injection H as <-. exact Hu.
Qed.

(** No handler stops, as long as the list is not empty, every symbol of the
    list has a label and the fetches are for symbols of the list. *)
Lemma handle_total (w0 w : BinanceWidget) (e : event) :
  stable w0 w -> symbols w0 <> [] ->
  (forall s, s ∈ symbols w0 -> exists i,
     priceLabels w0 !! s = Some i /\ i < length (labels w0)) ->
  (forall s, e = Fetched s -> s ∈ symbols w0) ->
  exists w', handle e w = Done w'.
Proof.
  intros [Ha Hs Hm Hl Ho] Hne Hheld Hin. destruct e as [symbol| |g|g]; simpl; eauto.
  - unfold Shell.updateLabel.
    destruct (Hheld symbol (Hin symbol eq_refl)) as (i & Hi & _).
    rewrite Hm, Hi. eauto.
  - unfold contextMenuEvent. rewrite Hs.
    destruct (symbols w0) as [|first rest] eqn:E; [contradiction|].
    destruct (Hheld first) as (i & Hi & Hlt); [now left|].
    rewrite Hm, Hi. simpl. rewrite <- Hl in Hlt.
    destruct (lookup_lt_is_Some_2 _ _ Hlt) as [label ->]. eauto.
Qed.

Lemma run_colors (w0 : BinanceWidget) (events : list event) :
  symbols w0 <> [] ->
  (forall s, s ∈ symbols w0 -> exists i,
     priceLabels w0 !! s = Some i /\ i < length (labels w0)) ->
  fetchesWithin (symbols w0) events ->
  forall w c, stable w0 w -> uniform c w ->
  exists w', run events w = Done w' /\ stable w0 w' /\ uniform (palette events c) w'.
Proof.
  intros Hne Hheld. induction events as [|e events IH]; intros Hin w c Hst Hu.
  - exists w. split; [reflexivity|]. split; assumption.
  - destruct (handle_total w0 w e Hst Hne Hheld) as [w1 H1].
    { intros s ->. apply Hin. now left. }
    pose proof (handle_stable w0 w w1 e Hst H1) as Hst1.
    pose proof (handle_colors w w1 e c Hu H1) as Hu1.
    destruct (IH (fun s H => Hin s (list_elem_of_further _ _ _ H))
                 w1 (palette [e] c) Hst1 Hu1) as (w' & Hrun & Hst' & Hu').
    exists w'. simpl. rewrite H1. split; [exact Hrun|]. split; [exact Hst'|].
    destruct e; exact Hu'.
Qed.

Lemma handle_texts (l : list string) (at_ : Z * Z) (P : string -> Prop)
    (w w' : BinanceWidget) (e : event) :
  NoDup l -> stable (NewBinanceWidget l at_) w ->
  showing l (apiUrl (NewBinanceWidget l at_)) P w ->
  handle e w = Done w' ->
  showing l (apiUrl (NewBinanceWidget l at_)) (fun s => P s \/ e = Fetched s) w'.
Proof.
  intros Hnd Hst Hq H. pose proof Hst as [Ha Hs Hm Hl Ho].
  destruct (new_widget_spec l at_) as (_ & _ & _ & Hspec).
  destruct e as [symbol| |g|g]; simpl in H.
  - unfold Shell.updateLabel in H.
    destruct (priceLabels w !! symbol) as [i'|] eqn:E; [|discriminate].
    injection H as <-. intros i s label Hi Hlab HP. simpl in Hlab.
    rewrite Hm in E. apply Hspec in E as [E _].
    destruct (decide (i' = i)) as [->|Hne].
    + rewrite list_lookup_alter_eq in Hlab.
      destruct (labels w !! i); [|discriminate]. injection Hlab as <-. simpl.
      rewrite Ha. congruence.
    + rewrite list_lookup_alter_ne in Hlab by exact Hne.
      apply (Hq i s label Hi Hlab). destruct HP as [HP|HP]; [exact HP|].
      injection HP as ->. contradiction Hne. exact (NoDup_lookup l i' i s Hnd E Hi).
  - unfold contextMenuEvent in H. destruct (symbols w) as [|first rest]; [discriminate|].
    destruct (priceLabels w !! first ≫= _) as [label0|]; [|discriminate].
    injection H as <-. intros i s label Hi Hlab HP. simpl in Hlab.
    destruct HP as [HP|HP]; [|discriminate].
    rewrite recolor_lookup in Hlab.
    destruct (decide (i ∈ _)); [|now apply (Hq i s label)].
    destruct (labels w !! i) as [old|] eqn:Eo; [|discriminate].
    injection Hlab as <-. simpl. now apply (Hq i s old).
  - injection H as <-. intros i s label Hi Hlab [HP|HP]; [|discriminate].
    now apply (Hq i s label).
  - injection H as <-. intros i s label Hi Hlab [HP|HP]; [|discriminate].
    now apply (Hq i s label).
Qed.

Lemma run_texts (l : list string) (at_ : Z * Z) (events : list event) :
  NoDup l ->
  forall (P : string -> Prop) (w w' : BinanceWidget),
    stable (NewBinanceWidget l at_) w ->
    showing l (apiUrl (NewBinanceWidget l at_)) P w ->
    run events w = Done w' ->
    showing l (apiUrl (NewBinanceWidget l at_)) (fun s => P s \/ Fetched s ∈ events) w'.
Proof.
  intros Hnd. induction events as [|e events IH]; intros P w w' Hst Hq H; simpl in H.
  - injection H as <-. intros i s label Hi Hlab [HP|HP]; [now apply (Hq i s label)|].
    now apply elem_of_nil in HP.
  - destruct (handle e w) as [w1| |] eqn:E; try discriminate.
    pose proof (handle_stable _ w w1 e Hst E) as Hst1.
    pose proof (handle_texts l at_ P w w1 e Hnd Hst Hq E) as Hq1.
    pose proof (IH _ w1 w' Hst1 Hq1 H) as Hq'.
    intros i s label Hi Hlab HP. apply (Hq' i s label Hi Hlab).
    destruct HP as [HP|HP]; [now left; left|].
    apply elem_of_cons in HP as [HP|HP]; [left; right; congruence|now right].
Qed.

(** With an empty symbol list the first request for the context menu
    stops the run. *)
Lemma run_empty (events : list event) :
  forall w, symbols w = [] -> fetchesWithin [] events -> ContextMenu ∈ events ->
            run events w = IndexOutOfRange.
Proof.
  induction events as [|e events IH]; intros w Hs Hf Hin.
  - now apply elem_of_nil in Hin.
  - assert (Hf' : fetchesWithin [] events)
      by (intros s H; apply Hf; now right).
    simpl. destruct e as [symbol| |g|g]; simpl.
    + exfalso. apply (elem_of_nil symbol). apply Hf. now left.
    + unfold contextMenuEvent. now rewrite Hs.
    + apply IH; [exact Hs|exact Hf'|].
      apply elem_of_cons in Hin as [?|?]; [discriminate|assumption].
    + apply IH; [exact Hs|exact Hf'|].
      apply elem_of_cons in Hin as [?|?]; [discriminate|assumption].
Qed.

End Facts.

(** *** Dragging *)

Lemma wrapCInt_small (z : Z) : inRange z -> wrapCInt z = z.
Proof. intros H. unfold wrapCInt, inRange in *. rewrite Z.mod_small; lia. Qed.

(** Cutting to 32 bits depends on the value modulo 2^32 only, and neither
    cut changes that. *)
Lemma wrapCInt_eq (a b : Z) :
  (exists k, a = b + 4294967296 * k)%Z -> wrapCInt a = wrapCInt b.
Proof.
  intros [k ->]. unfold wrapCInt. f_equal.
  replace (b + 4294967296 * k + 2147483648)%Z
    with (b + 2147483648 + k * 4294967296)%Z by lia.
  apply Z.mod_add. lia.
Qed.

Lemma wrapInt_diff (z : Z) : exists k, (wrapInt z = z + 4294967296 * k)%Z.
Proof.
  unfold wrapInt.
  exists (- 4294967296 * ((z + 9223372036854775808) / 18446744073709551616))%Z.
  pose proof (Z.div_mod (z + 9223372036854775808) 18446744073709551616 ltac:(lia)).
  lia.
Qed.

Lemma wrapCInt_diff (z : Z) : exists k, (wrapCInt z = z + 4294967296 * k)%Z.
Proof.
  unfold wrapCInt. exists (- ((z + 2147483648) / 4294967296))%Z.
  pose proof (Z.div_mod (z + 2147483648) 4294967296 ltac:(lia)). lia.
Qed.

Lemma move_coord (a g o : Z) :
  wrapCInt (addInt (wrapCInt a) (subInt g o)) = wrapCInt (a + (g - o)).
Proof.
  unfold addInt, subInt. apply wrapCInt_eq.
  destruct (wrapInt_diff (wrapCInt a + wrapInt (g - o))) as [k1 H1].
  destruct (wrapInt_diff (g - o)) as [k2 H2].
  destruct (wrapCInt_diff a) as [k3 H3].
  exists (k1 + k2 + k3)%Z. lia.
Qed.

(** One move keeps the offset between the window and the cursor, modulo
    2^32. *)
Lemma move_offset (g : Z * Z) (w : BinanceWidget) (a b : Z) :
  pos w = (wrapCInt a, wrapCInt b) ->
  pos (mouseMoveEvent g w)
    = (wrapCInt (a + (fst g - fst (oldPos w))), wrapCInt (b + (snd g - snd (oldPos w)))) /\
  oldPos (mouseMoveEvent g w) = g /\
  labels (mouseMoveEvent g w) = labels w.
Proof.
  intros Hpos. unfold mouseMoveEvent. simpl. rewrite Hpos. simpl.
  now rewrite !move_coord.
Qed.

Lemma moves_offset (gs : list (Z * Z)) :
  forall (w : BinanceWidget) (a b : Z),
    pos w = (wrapCInt a, wrapCInt b) ->
    pos (fold_left (fun w g => mouseMoveEvent g w) gs w)
      = (wrapCInt (a + (fst (lastPos (oldPos w) gs) - fst (oldPos w))),
         wrapCInt (b + (snd (lastPos (oldPos w) gs) - snd (oldPos w)))) /\
    labels (fold_left (fun w g => mouseMoveEvent g w) gs w) = labels w.
Proof.
  induction gs as [|g gs IH]; intros w a b Hpos.
  - simpl. unfold lastPos. simpl. rewrite Hpos. split; [|reflexivity].
    f_equal; f_equal; lia.
  - simpl fold_left.
    destruct (move_offset g w a b Hpos) as (Hp1 & Ho1 & Hl1).
    destruct (IH (mouseMoveEvent g w) _ _ Hp1) as [Hp Hl].
    rewrite Hp, Hl, Hl1, Ho1. split; [|reflexivity].
    assert (Hlast : lastPos g gs = lastPos (oldPos w) (g :: gs)).
    { unfold lastPos. destruct gs as [|g' gs]; [reflexivity|].
      rewrite last_cons_cons. destruct (last (g' :: gs)) eqn:E; [reflexivity|].
      apply last_None in E. discriminate. }
    rewrite Hlast. f_equal; f_equal; lia.
Qed.

(** *** The widget from its start *)

(** X15: [initUI] makes one label per entry of the symbol list, each reading
    [Loading...] in green; [priceLabels] holds for every symbol of the list
    the label of the symbol's last entry, and holds nothing else. *)
Theorem initUI_labels (l : list string) (at_ : Z * Z) :
  length (labels (NewBinanceWidget l at_)) = length l /\
  (forall i, i < length l -> labels (NewBinanceWidget l at_) !! i = Some loadingLabel) /\
  (forall s i, priceLabels (NewBinanceWidget l at_) !! s = Some i <->
               l !! i = Some s /\ forall j, i < j -> l !! j <> Some s) /\
  (forall s, s ∈ l -> is_Some (priceLabels (NewBinanceWidget l at_) !! s)).
Proof.
  destruct (new_widget_spec l at_) as (_ & _ & Hl & Hm).
  split; [now rewrite Hl, length_replicate|].
  split; [intros i Hi; rewrite Hl; now apply lookup_replicate_2|].
  split; [exact Hm|].
  intros s Hin. destruct (new_widget_held l at_ s Hin) as (i & Hi & _). eauto.
Qed.

(** X16: when a symbol stands twice in the list, the label of its earlier
    entry is never set again: whatever fetches come back and whatever the
    user does, it goes on reading [Loading...] in green. *)
Theorem earlier_duplicate_stays_loading (Error : error -> string)
    (httpGet : string -> Widget.GetResult) (l : list string) (at_ : Z * Z)
    (events : list event) (w : BinanceWidget) (i j : nat) (s : string) :
  run Error httpGet events (NewBinanceWidget l at_) = Done w ->
  l !! i = Some s -> i < j -> l !! j = Some s ->
  labels w !! i = Some loadingLabel.
Proof.
  intros Hrun Hi Hij Hj.
  pose proof (run_stable Error httpGet events _ _ _ (stable_refl _) Hrun) as Hst.
  destruct (new_widget_spec l at_) as (_ & _ & Hl & Hm).
  rewrite (stable_others _ _ Hst).
  - rewrite Hl. apply lookup_replicate_2. now apply lookup_lt_Some in Hi.
  - intros s' Hs'. apply Hm in Hs' as [Hs' Hlater].
    assert (s' = s) as -> by congruence. now apply (Hlater j).
Qed.

Lemma earlier_duplicate_stays_loading_witness :
  labels sampleRun !! 0 = Some loadingLabel.
Proof.
  apply (earlier_duplicate_stays_loading Config.sampleError Widget.sampleNet
           ["BTC"; "ETH"; "BTC"] (10, 20)%Z sampleEvents sampleRun 0 2 "BTC").
  - vm_compute. reflexivity.
  - reflexivity.
  - lia.
  - reflexivity.
Defined.

(** X17: when no symbol stands twice in the list, then once the fetch of
    every symbol has come back the labels read, in list order, the text of
    each symbol's fetch, whatever the order of the fetches and whatever else
    happened in between. *)
Theorem labels_show_quotes (Error : error -> string)
    (httpGet : string -> Widget.GetResult) (l : list string) (at_ : Z * Z)
    (events : list event) (w : BinanceWidget) :
  NoDup l ->
  (forall s, s ∈ l -> Fetched s ∈ events) ->
  run Error httpGet events (NewBinanceWidget l at_) = Done w ->
  text <$> labels w
  = Widget.resultText Error httpGet (apiUrl (NewBinanceWidget l at_)) <$> l.
Proof.
  intros Hnd Hall Hrun.
  pose proof (run_stable Error httpGet events _ _ _ (stable_refl _) Hrun) as Hst.
  assert (Hq0 : showing Error httpGet l (apiUrl (NewBinanceWidget l at_))
                        (fun _ => False) (NewBinanceWidget l at_))
    by (intros i s label _ _ []).
  pose proof (run_texts Error httpGet l at_ events Hnd _ _ _ (stable_refl _) Hq0 Hrun) as Hq.
  destruct (new_widget_spec l at_) as (_ & _ & Hl & _).
  pose proof (stable_length _ _ Hst) as Hlen. rewrite Hl, length_replicate in Hlen.
  apply list_eq. intros i. rewrite !list_lookup_fmap.
  destruct (l !! i) as [s|] eqn:Ei.
  - pose proof (lookup_lt_Some _ _ _ Ei) as Hlt. rewrite <- Hlen in Hlt.
    destruct (lookup_lt_is_Some_2 _ _ Hlt) as [label Elab]. rewrite Elab. simpl.
    f_equal. apply (Hq i s label Ei Elab). right. apply Hall.
    apply list_elem_of_lookup. eauto.
  - apply lookup_ge_None in Ei. rewrite <- Hlen in Ei.
    apply lookup_ge_None in Ei. now rewrite Ei.
Qed.

Lemma labels_show_quotes_witness :
  text <$> labels sampleRun2
  = Widget.resultText Config.sampleError Widget.sampleNet
      (apiUrl (NewBinanceWidget ["BTC"; "ETH"] (10, 20)%Z)) <$> ["BTC"; "ETH"].
Proof.
  apply (labels_show_quotes Config.sampleError Widget.sampleNet ["BTC"; "ETH"]
           (10, 20)%Z sampleEvents sampleRun2).
  - apply (bool_decide_unpack (NoDup ["BTC"; "ETH"])). vm_compute. reflexivity.
  - intros s Hs. unfold sampleEvents.
    apply elem_of_cons in Hs as [->|Hs]; [apply list_elem_of_here|].
    apply elem_of_cons in Hs as [->|Hs];
      [do 2 apply list_elem_of_further; apply list_elem_of_here|].
    now apply elem_of_nil in Hs.
  - vm_compute. reflexivity.
Defined.

(** X18: with a symbol list that is not empty and fetches for its symbols
    only, no run of events stops, and after it the label of every symbol is
    green when the context menu was asked for an even number of times and
    magenta otherwise, with the style sheet written for that colour. *)
Theorem context_menu_toggles (Error : error -> string)
    (httpGet : string -> Widget.GetResult) (l : list string) (at_ : Z * Z)
    (events : list event) :
  l <> [] ->
  fetchesWithin l events ->
  exists w,
    run Error httpGet events (NewBinanceWidget l at_) = Done w /\
    forall s, s ∈ l -> exists i label,
      priceLabels w !! s = Some i /\ labels w !! i = Some label /\
      color label = colorAfter events /\
      styleSheet label = colorSheet (colorAfter events).
Proof.
  intros Hne Hf.
  destruct (new_widget_spec l at_) as (_ & Hs & _ & _).
  destruct (run_colors Error httpGet (NewBinanceWidget l at_) events) with
    (w := NewBinanceWidget l at_) (c := green) as (w & Hrun & Hst & Hu).
  - now rewrite Hs.
  - apply new_widget_bound.
  - now rewrite Hs.
  - apply stable_refl.
  - apply new_widget_uniform.
  - exists w. split; [exact Hrun|]. intros s Hin.
    destruct (new_widget_bound l at_ s) as (i & Hi & Hlt); [now rewrite Hs|].
    rewrite <- (stable_length _ _ Hst) in Hlt.
    destruct (lookup_lt_is_Some_2 _ _ Hlt) as [label Hlab].
    rewrite <- (stable_priceLabels _ _ Hst) in Hi.
    exists i, label. split; [exact Hi|]. split; [exact Hlab|].
    rewrite palette_parity in Hu. unfold colorAfter.
    change magenta with (invert green). exact (Hu s i label Hi Hlab).
Qed.

Lemma context_menu_toggles_witness :
  exists w,
    run Config.sampleError Widget.sampleNet sampleEvents
        (NewBinanceWidget ["BTC"; "ETH"; "BTC"] (10, 20)%Z) = Done w /\
    forall s, s ∈ ["BTC"; "ETH"; "BTC"] -> exists i label,
      priceLabels w !! s = Some i /\ labels w !! i = Some label /\
      color label = colorAfter sampleEvents /\
      styleSheet label = colorSheet (colorAfter sampleEvents).
Proof.
  apply (context_menu_toggles Config.sampleError Widget.sampleNet
           ["BTC"; "ETH"; "BTC"] (10, 20)%Z sampleEvents).
  - discriminate.
  - intros s Hs. unfold sampleEvents in Hs.
    apply elem_of_cons in Hs as [[= ->]|Hs]; [now left|].
    apply elem_of_cons in Hs as [Hs|Hs]; [discriminate|].
    apply elem_of_cons in Hs as [[= ->]|Hs]; [right; now left|].
    apply elem_of_cons in Hs as [Hs|Hs]; [discriminate|].
    apply elem_of_cons in Hs as [Hs|Hs]; [discriminate|].
    now apply elem_of_nil in Hs.
Defined.

(** X19: during a drag the window follows the cursor: after a press at [g0]
    and any moves, the window is where the cursor's way since the press
    takes it, cut to a C [int] as the arguments of [Move2] are; when that
    place is within 32 bits, the window has moved by exactly as much as the
    cursor. No label changes. *)
Theorem drag_follows_cursor (w : BinanceWidget) (g0 : Z * Z) (gs : list (Z * Z)) :
  pointInRange (pos w) ->
  pos (drag g0 gs w)
    = (wrapCInt (fst (dragTarget (pos w) g0 gs)), wrapCInt (snd (dragTarget (pos w) g0 gs))) /\
  (pointInRange (dragTarget (pos w) g0 gs) ->
   pos (drag g0 gs w) = dragTarget (pos w) g0 gs) /\
  labels (drag g0 gs w) = labels w.
Proof.
  intros [Hpx Hpy]. unfold drag.
  destruct (moves_offset gs (mousePressEvent g0 w) (fst (pos w)) (snd (pos w)))
    as [Hp Hl].
  { simpl. rewrite !wrapCInt_small by assumption. now destruct (pos w). }
  simpl in Hp, Hl. split; [exact Hp|]. split; [|exact Hl].
  intros [Hx Hy]. rewrite Hp. unfold dragTarget in *. simpl in Hx, Hy.
  now rewrite !wrapCInt_small by assumption.
Qed.

Lemma drag_follows_cursor_witness :
  pos (drag (100, 100)%Z [(130, 90)%Z; (90, 95)%Z] (NewBinanceWidget ["BTC"] (10, 20)%Z))
    = (0, 15)%Z /\
  pos (drag (0, 0)%Z [(1, 0)%Z] (NewBinanceWidget ["BTC"] (2147483647, 0)%Z))
    = (-2147483648, 0)%Z /\
  labels (drag (100, 100)%Z [(130, 90)%Z; (90, 95)%Z] (NewBinanceWidget ["BTC"] (10, 20)%Z))
    = labels (NewBinanceWidget ["BTC"] (10, 20)%Z).
Proof.
  destruct (drag_follows_cursor (NewBinanceWidget ["BTC"] (10, 20)%Z) (100, 100)%Z
              [(130, 90)%Z; (90, 95)%Z]) as (_ & Hexact & Hlabels).
  { split; unfold inRange; simpl; lia. }
  destruct (drag_follows_cursor (NewBinanceWidget ["BTC"] (2147483647, 0)%Z) (0, 0)%Z
              [(1, 0)%Z]) as (Hwrap & _).
  { split; unfold inRange; simpl; lia. }
  split; [|split; [|exact Hlabels]].
  - rewrite Hexact; [reflexivity|]. split; unfold inRange; simpl; lia.
  - rewrite Hwrap. reflexivity.
Defined.

(** X20: [main] ends in [log.Fatal] exactly when the config path can be
    opened and cannot be read; a config that is missing, that cannot be
    opened or that is not JSON never does that. *)
Theorem main_fatal_iff (Error : error -> string) (at_ : Z * Z) (world : World) :
  (exists err, fst (main Error at_ world) = Fatal err) <->
  (exists errno, files world !! configPathOf (HOME world) = Some (ReadFails errno)).
Proof.
  unfold main. split.
  - intros [err H].
    destruct (files world !! configPathOf (HOME world)) as [[content|errno|errno]|] eqn:E.
    + rewrite (ConfigFacts.load_regular Error world content E) in H.
      now destruct (derefAll _ _).
    + exfalso. unfold loadSymbolsFromConfig in H.
      rewrite (ConfigFacts.Open_fails _ _ _ E) in H.
      destruct (IsNotExist _); [|discriminate].
      now destruct (createDefaultConfig _ _).
    + eauto.
    + rewrite (ConfigFacts.load_missing Error world E) in H. discriminate.
  - intros [errno E]. rewrite (ConfigFacts.load_read_fails Error world errno E).
    simpl. eauto.
Qed.

(** X21: when the load gives the empty list and no error (a config that is
    not JSON, or not an array, or an empty array), [main] starts a widget
    without labels, and the first request for the context menu panics on
    [w.symbols[0]], whatever the mouse did before. *)
Theorem empty_list_context_menu_panics (Error : error -> string)
    (httpGet : string -> Widget.GetResult) (at_ : Z * Z) (world : World) :
  fst (loadSymbolsFromConfig Error world) = Return [] None ->
  exists w,
    fst (main Error at_ world) = Running w /\
    labels w = [] /\
    forall events, fetchesWithin [] events -> ContextMenu ∈ events ->
                   run Error httpGet events w = IndexOutOfRange.
Proof.
  intros H. unfold main. destruct (loadSymbolsFromConfig Error world) as [o world'].
  simpl in H. subst o. exists (NewBinanceWidget [] at_).
  split; [reflexivity|]. split; [reflexivity|].
  intros events Hf Hin. now apply run_empty.
Qed.

Lemma empty_list_context_menu_panics_witness :
  exists w,
    fst (main sampleError (10, 20)%Z (worldWithConfig "not json")) = Running w /\
    labels w = [] /\
    forall events, fetchesWithin [] events -> ContextMenu ∈ events ->
                   run sampleError Widget.sampleNet events w = IndexOutOfRange.
Proof.
  apply (empty_list_context_menu_panics sampleError Widget.sampleNet (10, 20)%Z
           (worldWithConfig "not json")).
  vm_compute. reflexivity.
Defined.

End ShellFacts.
